(** * Daily Constants: the task list of [src/App.tsx]

    A shallow embedding of the state handled by the [App] component: the
    [Task] records, the handlers [addTask], [toggleTask], [deleteTask] and
    [handleDragEnd], the [useState] initializer that reads [localStorage]
    and the [useEffect] that writes it.

    Conventions.
    - A JavaScript string is a sequence of code units; the model keeps the
      code units below 256 and writes them as Rocq's [string].
    - An optional property ([isNew?], [isDeleting?]) is an [option]: [None]
      is the property being absent (it reads as [undefined]).
    - [Date.now()] is an input of the handler that calls it.
    - [setTimeout] callbacks are kept in a queue; every delay in the source
      is 300 ms, so they run in the order in which they were scheduled.
    - Events are handled one at a time, and a handler reads the state that
      the event before it left: the [tasks] of its closure are the current
      ones. *)

From Stdlib Require Import ZArith List String Ascii Bool Lia.
From Stdlib Require Import DecimalString DecimalZ DecimalFacts Permutation.
From stdpp Require Import gmap strings.
Import ListNotations.

Local Open Scope string_scope.
Local Open Scope list_scope.
Local Open Scope Z_scope.

(** String concatenation computes on a literal prefix. *)
#[local] Arguments String.append !s1 s2.

(** ** The platform: arrays, strings, numbers *)

Module JS.

(** [Array.prototype.findIndex]: the index of the first element that
    satisfies [p], or [-1]. *)
Fixpoint findIndex {A} (p : A -> bool) (l : list A) : Z :=
  match l with
  | [] => -1
  | x :: r =>
      if p x then 0
      else match findIndex p r with
           | Z.neg _ => -1
           | i => i + 1
           end
  end.

(** The start index of [splice] and [slice]: a negative index counts
    from the end, and the result is clamped to [0 .. len]. *)
Definition actualStart (start len : Z) : Z :=
  if start <? 0 then Z.max (len + start) 0 else Z.min start len.

(** [Array.prototype.splice(start, deleteCount, ...items)]: the removed
    elements, and the array after the call. *)
Definition splice {A} (start deleteCount : Z) (items : list A) (l : list A)
  : list A * list A :=
  let len := Z.of_nat (List.length l) in
  let s := actualStart start len in
  let d := Z.min (Z.max deleteCount 0) (len - s) in
  (firstn (Z.to_nat d) (skipn (Z.to_nat s) l),
   firstn (Z.to_nat s) l ++ items ++ skipn (Z.to_nat (s + d)) l).

(** Truthiness of an optional boolean property and of a string. *)
Definition truthy (b : option bool) : bool :=
  match b with Some true => true | _ => false end.

Definition truthy_string (s : string) : bool :=
  negb (s =? "")%string.

(** White space and line terminators, as [String.prototype.trim] strips
    them: TAB, LF, VT, FF, CR, SP and NBSP among the code units below
    256. *)
Definition is_white_space (c : ascii) : bool :=
  let n := N_of_ascii c in
  ((9 <=? n) && (n <=? 13) || (n =? 32) || (n =? 160))%N.

Fixpoint trimStart (s : string) : string :=
  match s with
  | String c r => if is_white_space c then trimStart r else s
  | EmptyString => EmptyString
  end.

Fixpoint trimEnd (s : string) : string :=
  match s with
  | String c r =>
      match trimEnd r with
      | EmptyString => if is_white_space c then EmptyString else String c EmptyString
      | r' => String c r'
      end
  | EmptyString => EmptyString
  end.

Definition trim (s : string) : string := trimEnd (trimStart s).

(** [Number.prototype.toString] on an integer time value: its decimal
    digits, with a minus sign below zero. *)
Definition toString (n : Z) : string :=
  NilZero.string_of_int (Z.to_int n).

End JS.

(** ** The data model *)

Inductive Category : Type := physical | mental | spiritual | chores.

Record Task : Type := mkTask {
  id : string;
  text : string;
  completed : bool;
  category : Category;
  isNew : option bool;
  isDeleting : option bool;
}.

(** Object spreads with one property replaced. *)
Definition with_completed (b : bool) (t : Task) : Task :=
  mkTask (id t) (text t) b (category t) (isNew t) (isDeleting t).

Definition with_isNew (b : bool) (t : Task) : Task :=
  mkTask (id t) (text t) (completed t) (category t) (Some b) (isDeleting t).

Definition with_isDeleting (b : bool) (t : Task) : Task :=
  mkTask (id t) (text t) (completed t) (category t) (isNew t) (Some b).

Definition defaultTasks : list Task :=
  [ mkTask "1" "Morning workout" false physical None None;
    mkTask "2" "Meditation" false spiritual None None;
    mkTask "3" "Read for 30 minutes" false mental None None;
    mkTask "4" "Make the bed" false chores None None ].

Definition categories : list Category := [physical; mental; spiritual; chores].

(** ** The handlers of [App] *)

(** [addTask]: the array given to [setTasks]; the array is left alone when
    the trimmed input is empty. [now] is the value of [Date.now()]. *)
Definition newTaskRecord (now : Z) (newTask : string) (selectedCategory : Category) : Task :=
  {| id := JS.toString now;
     text := newTask;
     completed := false;
     category := selectedCategory;
     isNew := Some true;
     isDeleting := None |}.

Definition addTask (now : Z) (newTask : string) (selectedCategory : Category)
    (tasks : list Task) : list Task :=
  if JS.truthy_string (JS.trim newTask)
  then tasks ++ [newTaskRecord now newTask selectedCategory]
  else tasks.

(** The callback that [addTask] hands to [setTimeout]. *)
Definition clearIsNew (taskId : string) (current : list Task) : list Task :=
  map (fun t => if (id t =? taskId)%string then with_isNew false t else t) current.

Definition toggleTask (taskId : string) (tasks : list Task) : list Task :=
  map (fun task =>
         if (id task =? taskId)%string
         then with_completed (negb (completed task)) task
         else task) tasks.

(** [deleteTask] has two parts: the update made at once, and the one made
    by the [setTimeout] callback. *)
Definition markDeleting (taskId : string) (current : list Task) : list Task :=
  map (fun task =>
         if (id task =? taskId)%string then with_isDeleting true task else task)
      current.

Definition removeTask (taskId : string) (current : list Task) : list Task :=
  List.filter (fun task => negb (id task =? taskId)%string) current.

(** The updater of [handleDragEnd]. [movedItem] is the first removed
    element; it is [undefined] when nothing was removed, and the array then
    receives a slot that holds no task: the result is [None]. *)
Definition moveItem (activeId overId : string) (items : list Task)
    : option (list Task) :=
  let oldIndex := JS.findIndex (fun item => (id item =? activeId)%string) items in
  let newIndex := JS.findIndex (fun item => (id item =? overId)%string) items in
  let '(removed, newItems) := JS.splice oldIndex 1 [] items in
  match removed with
  | movedItem :: _ => Some (snd (JS.splice newIndex 0 [movedItem] newItems))
  | [] => None
  end.

(** [handleDragEnd]: [over] is [null] when the item is dropped on no
    target; [setTasks] is called only when [over] is there and its id is
    not the active one. *)
Definition handleDragEnd (activeId : string) (over : option string)
    (tasks : list Task) : option (list Task) :=
  match over with
  | Some overId =>
      if negb (activeId =? overId)%string
      then moveItem activeId overId tasks
      else Some tasks
  | None => Some tasks
  end.

(** The argument of [JSON.stringify] in the [useEffect]. *)
Definition persisted (tasks : list Task) : list Task :=
  List.filter (fun task => negb (JS.truthy (isDeleting task))) tasks.

(** ** The platform: JSON texts *)

(** The quotation mark, by its code. *)
Abbreviation DQ := ("034"%char).

Module JSON.

(** The value that a JSON text denotes. A number is kept as its literal,
    and the members of an object in the order of the text. *)
#[local] Unset Elimination Schemes.
Inductive value : Type :=
| Null
| Bool (b : bool)
| Number (literal : string)
| Str (s : string)
| Array (elements : list value)
| Object (members : list (string * value)).
#[local] Set Elimination Schemes.

(** How a computation can fail to return. [SyntaxError] is the exception
    of [JSON.parse]. [Unrepresentable] marks a text with an escape for a
    code unit above 255, which the strings of the model do not hold.
    [OutOfFuel] is the recursion bound of the model; [JSON.parse] never
    reaches it (lemma [parse_total]). *)
Inductive failure : Type := SyntaxError | Unrepresentable | OutOfFuel.

Inductive outcome (A : Type) : Type :=
| Ok (a : A)
| Fail (f : failure).
Arguments Ok {A} a.
Arguments Fail {A} f.

Definition bind {A B} (m : outcome A) (k : A -> outcome B) : outcome B :=
  match m with
  | Ok a => k a
  | Fail f => Fail f
  end.

Notation "'let*' p ':=' m 'in' k" := (bind m (fun p => k))
  (at level 10, p pattern, m at level 200, k at level 200).

(** *** Reading *)

Definition is_ws (c : ascii) : bool :=
  ((c =? " ") || (c =? "009") || (c =? "010") || (c =? "013"))%char.

Fixpoint skip_ws (s : string) : string :=
  match s with
  | String c r => if is_ws c then skip_ws r else s
  | EmptyString => EmptyString
  end.

Definition is_digit (c : ascii) : bool :=
  let n := N_of_ascii c in ((48 <=? n) && (n <=? 57))%N.

Definition hex_digit (c : ascii) : option N :=
  let n := N_of_ascii c in
  if ((48 <=? n) && (n <=? 57))%N then Some (n - 48)%N
  else if ((97 <=? n) && (n <=? 102))%N then Some (n - 87)%N
  else if ((65 <=? n) && (n <=? 70))%N then Some (n - 55)%N
  else None.

Definition hex4 (a b c d : ascii) : option N :=
  match hex_digit a, hex_digit b, hex_digit c, hex_digit d with
  | Some x, Some y, Some z, Some w => Some (((x * 16 + y) * 16 + z) * 16 + w)%N
  | _, _, _, _ => None
  end.

(** The characters of a string literal, after its opening quote, and the
    text after its closing quote. *)
Fixpoint parse_chars (s : string) : outcome (string * string) :=
  match s with
  | EmptyString => Fail SyntaxError
  | String c r =>
      if (c =? DQ)%char then Ok (EmptyString, r)
      else if (c =? "\")%char then
        match r with
        | EmptyString => Fail SyntaxError
        | String e r' =>
            let simple (d : ascii) :=
              let* (cs, rest) := parse_chars r' in Ok (String d cs, rest) in
            if (e =? DQ)%char then simple DQ
            else if (e =? "\")%char then simple "\"%char
            else if (e =? "/")%char then simple "/"%char
            else if (e =? "b")%char then simple "008"%char
            else if (e =? "f")%char then simple "012"%char
            else if (e =? "n")%char then simple "010"%char
            else if (e =? "r")%char then simple "013"%char
            else if (e =? "t")%char then simple "009"%char
            else if (e =? "u")%char then
              match r' with
              | String h1 (String h2 (String h3 (String h4 r''))) =>
                  match hex4 h1 h2 h3 h4 with
                  | Some n =>
                      if (n <? 256)%N
                      then let* (cs, rest) := parse_chars r'' in
                           Ok (String (ascii_of_N n) cs, rest)
                      else Fail Unrepresentable
                  | None => Fail SyntaxError
                  end
              | _ => Fail SyntaxError
              end
            else Fail SyntaxError
        end
      else if (N_of_ascii c <? 32)%N then Fail SyntaxError
      else let* (cs, rest) := parse_chars r in Ok (String c cs, rest)
  end.

(** The longest prefix of digits, and what follows it. *)
Fixpoint span_digits (s : string) : string * string :=
  match s with
  | String c r =>
      if is_digit c
      then let '(ds, rest) := span_digits r in (String c ds, rest)
      else (EmptyString, s)
  | EmptyString => (EmptyString, EmptyString)
  end.

(** [int]: a single 0, or a digit from 1 to 9 followed by digits. *)
Definition parse_int (s : string) : outcome (string * string) :=
  match s with
  | String c r =>
      if (c =? "0")%char then Ok (String c EmptyString, r)
      else if is_digit c
      then let '(ds, rest) := span_digits r in Ok (String c ds, rest)
      else Fail SyntaxError
  | EmptyString => Fail SyntaxError
  end.

(** [frac]: nothing, or a point followed by one digit at least. *)
Definition parse_frac (s : string) : outcome (string * string) :=
  match s with
  | String c r =>
      if (c =? ".")%char
      then match span_digits r with
           | (EmptyString, _) => Fail SyntaxError
           | (ds, rest) => Ok (String c ds, rest)
           end
      else Ok (EmptyString, s)
  | EmptyString => Ok (EmptyString, s)
  end.

(** [exp]: nothing, or e or E, a sign or none, and one digit at least. *)
Definition parse_exp (s : string) : outcome (string * string) :=
  match s with
  | String c r =>
      if ((c =? "e") || (c =? "E"))%char
      then
        let '(sign, r1) :=
          match r with
          | String g r' =>
              if ((g =? "+") || (g =? "-"))%char
              then (String g EmptyString, r') else (EmptyString, r)
          | EmptyString => (EmptyString, r)
          end in
        match span_digits r1 with
        | (EmptyString, _) => Fail SyntaxError
        | (ds, rest) => Ok (String c (sign ++ ds)%string, rest)
        end
      else Ok (EmptyString, s)
  | EmptyString => Ok (EmptyString, s)
  end.

Definition parse_number (s : string) : outcome (string * string) :=
  let '(sign, s1) :=
    match s with
    | String c r =>
        if (c =? "-")%char then (String c EmptyString, r) else (EmptyString, s)
    | EmptyString => (EmptyString, s)
    end in
  let* (i, s2) := parse_int s1 in
  let* (f, s3) := parse_frac s2 in
  let* (e, s4) := parse_exp s3 in
  Ok ((sign ++ i ++ f ++ e)%string, s4).

(** [s] without the prefix [p], when it starts with [p]. *)
Fixpoint strip_prefix (p s : string) : option string :=
  match p, s with
  | EmptyString, _ => Some s
  | String a p', String b s' =>
      if (a =? b)%char then strip_prefix p' s' else None
  | String _ _, EmptyString => None
  end.

Definition parse_literal (name : string) (v : value) (s : string)
  : outcome (value * string) :=
  match strip_prefix name s with
  | Some rest => Ok (v, rest)
  | None => Fail SyntaxError
  end.

(** [s] after its first character, when that is [c]. *)
Definition after (c : ascii) (s : string) : option string :=
  match s with
  | String d r => if (d =? c)%char then Some r else None
  | EmptyString => None
  end.

(** A value, the elements of an array after its first bracket, and the
    members of an object after its first brace; each with the text that
    follows. *)
Fixpoint parse_value (fuel : nat) (s : string) : outcome (value * string) :=
  match fuel with
  | O => Fail OutOfFuel
  | S n =>
      match skip_ws s with
      | EmptyString => Fail SyntaxError
      | String c r =>
          if (c =? "{")%char then
            match after "}" (skip_ws r) with
            | Some r' => Ok (Object [], r')
            | None => let* (ms, rest) := parse_members n r in Ok (Object ms, rest)
            end
          else if (c =? "[")%char then
            match after "]" (skip_ws r) with
            | Some r' => Ok (Array [], r')
            | None => let* (vs, rest) := parse_elements n r in Ok (Array vs, rest)
            end
          else if (c =? DQ)%char then
            let* (str, rest) := parse_chars r in Ok (Str str, rest)
          else if (c =? "t")%char then parse_literal "true" (Bool true) (String c r)
          else if (c =? "f")%char then parse_literal "false" (Bool false) (String c r)
          else if (c =? "n")%char then parse_literal "null" Null (String c r)
          else let* (lit, rest) := parse_number (String c r) in Ok (Number lit, rest)
      end
  end
with parse_elements (fuel : nat) (s : string) : outcome (list value * string) :=
  match fuel with
  | O => Fail OutOfFuel
  | S n =>
      let* (v, r) := parse_value n s in
      match skip_ws r with
      | String c r' =>
          if (c =? ",")%char
          then let* (vs, rest) := parse_elements n r' in Ok (v :: vs, rest)
          else if (c =? "]")%char then Ok ([v], r')
          else Fail SyntaxError
      | EmptyString => Fail SyntaxError
      end
  end
with parse_members (fuel : nat) (s : string)
  : outcome (list (string * value) * string) :=
  match fuel with
  | O => Fail OutOfFuel
  | S n =>
      match skip_ws s with
      | String q r =>
          if (q =? DQ)%char then
            let* (k, r1) := parse_chars r in
            match skip_ws r1 with
            | String c r2 =>
                if (c =? ":")%char then
                  let* (v, r3) := parse_value n r2 in
                  match skip_ws r3 with
                  | String d r4 =>
                      if (d =? ",")%char
                      then let* (ms, rest) := parse_members n r4 in
                           Ok ((k, v) :: ms, rest)
                      else if (d =? "}")%char then Ok ([(k, v)], r4)
                      else Fail SyntaxError
                  | EmptyString => Fail SyntaxError
                  end
                else Fail SyntaxError
            | EmptyString => Fail SyntaxError
            end
          else Fail SyntaxError
      | EmptyString => Fail SyntaxError
      end
  end.

(** [JSON.parse]: one value, with white space around it and nothing
    else. *)
Definition parse (text : string) : outcome value :=
  let* (v, rest) := parse_value (2 * String.length text + 2) text in
  match skip_ws rest with
  | EmptyString => Ok v
  | String _ _ => Fail SyntaxError
  end.

(** *** Writing *)

Definition hex_char (n : N) : ascii :=
  if (n <? 10)%N then ascii_of_N (48 + n) else ascii_of_N (87 + n).

(** [QuoteJSONString], one code unit at a time. *)
Definition quote_char (c : ascii) : string :=
  let n := N_of_ascii c in
  if (c =? DQ)%char then String "\" (String DQ EmptyString)
  else if (c =? "\")%char then "\\"
  else if (n =? 8)%N then "\b"
  else if (n =? 12)%N then "\f"
  else if (n =? 10)%N then "\n"
  else if (n =? 13)%N then "\r"
  else if (n =? 9)%N then "\t"
  else if (n <? 32)%N
  then String "\" (String "u" (String "0" (String "0"
         (String (hex_char (n / 16)) (String (hex_char (n mod 16)) EmptyString)))))
  else String c EmptyString.

Fixpoint quote_body (s : string) : string :=
  match s with
  | String c r => (quote_char c ++ quote_body r)%string
  | EmptyString => EmptyString
  end.

Definition quote (s : string) : string :=
  String DQ (quote_body s ++ String DQ EmptyString)%string.

Fixpoint join (sep : string) (l : list string) : string :=
  match l with
  | [] => EmptyString
  | [x] => x
  | x :: r => (x ++ sep ++ join sep r)%string
  end.

(** [JSON.stringify] with one argument. *)
Fixpoint stringify (v : value) : string :=
  match v with
  | Null => "null"
  | Bool true => "true"
  | Bool false => "false"
  | Number literal => literal
  | Str s => quote s
  | Array elements =>
      ("[" ++ join "," (map stringify elements) ++ "]")%string
  | Object members =>
      ("{" ++ join ","
                (map (fun m => match m with
                               | (k, v') => (quote k ++ ":" ++ stringify v')%string
                               end) members)
           ++ "}")%string
  end.

End JSON.

(** ** Storage *)

Definition Category_name (c : Category) : string :=
  match c with
  | physical => "physical"
  | mental => "mental"
  | spiritual => "spiritual"
  | chores => "chores"
  end.

(** An optional boolean property: a member when it is there. *)
Definition optional_member (k : string) (p : option bool)
    : list (string * JSON.value) :=
  match p with
  | Some b => [(k, JSON.Bool b)]
  | None => []
  end.

(** A [Task] object as a value: its own properties in the order in which
    the source creates them. *)
Definition task_value (t : Task) : JSON.value :=
  JSON.Object
    ([ ("id", JSON.Str (id t));
       ("text", JSON.Str (text t));
       ("completed", JSON.Bool (completed t));
       ("category", JSON.Str (Category_name (category t))) ]
     ++ optional_member "isNew" (isNew t)
     ++ optional_member "isDeleting" (isDeleting t)).

Definition tasks_value (tasks : list Task) : JSON.value :=
  JSON.Array (map task_value tasks).

(** The [useState] initializer: the value that becomes [tasks], or the
    failure of [JSON.parse]. A stored empty string is falsy, as [null]
    is. *)
Definition initTasks (localStorage : gmap string string)
    : JSON.outcome JSON.value :=
  match localStorage !! "tasks" with
  | Some savedTasks =>
      if JS.truthy_string savedTasks
      then JSON.parse savedTasks
      else JSON.Ok (tasks_value defaultTasks)
  | None => JSON.Ok (tasks_value defaultTasks)
  end.

(** The [useEffect]: what [localStorage] holds after it has run. *)
Definition saveTasks (tasks : list Task) (localStorage : gmap string string)
    : gmap string string :=
  <["tasks" := JSON.stringify (tasks_value (persisted tasks))]> localStorage.

(** ** The component as a transition system *)

Inductive timer : Type :=
| ClearIsNew (taskId : string)
| RemoveTask (taskId : string).

Record App : Type := mkApp {
  tasks : list Task;
  newTask : string;
  selectedCategory : Category;
  localStorage : gmap string string;
  timers : list timer;
}.

Inductive event : Type :=
| Change (value : string)
| SelectCategory (c : Category)
| Submit (now : Z)
| Toggle (taskId : string)
| Delete (taskId : string)
| DragEnd (activeId : string) (over : option string)
| Timeout.

(** [setTasks] followed by the render and its effect. *)
Definition setTasks (ts : list Task) (w : App) : App :=
  mkApp ts (newTask w) (selectedCategory w) (saveTasks ts (localStorage w)) (timers w).

Definition setTimeout (t : timer) (w : App) : App :=
  mkApp (tasks w) (newTask w) (selectedCategory w) (localStorage w) (timers w ++ [t]).

Definition runTimer (t : timer) (current : list Task) : list Task :=
  match t with
  | ClearIsNew taskId => clearIsNew taskId current
  | RemoveTask taskId => removeTask taskId current
  end.

(** One event. The result is [None] when the array of tasks has received
    an [undefined] slot: the next render reads a property of it and
    throws. *)
Definition step (e : event) (w : App) : option App :=
  match e with
  | Change value =>
      Some (mkApp (tasks w) value (selectedCategory w) (localStorage w) (timers w))
  | SelectCategory c =>
      Some (mkApp (tasks w) (newTask w) c (localStorage w) (timers w))
  | Submit now =>
      if JS.truthy_string (JS.trim (newTask w))
      then
        let w1 := setTasks (addTask now (newTask w) (selectedCategory w) (tasks w)) w in
        let w2 := mkApp (tasks w1) "" (selectedCategory w1) (localStorage w1) (timers w1) in
        Some (setTimeout (ClearIsNew (JS.toString now)) w2)
      else Some w
  | Toggle taskId => Some (setTasks (toggleTask taskId (tasks w)) w)
  | Delete taskId =>
      Some (setTimeout (RemoveTask taskId) (setTasks (markDeleting taskId (tasks w)) w))
  | DragEnd activeId over =>
      match over with
      | Some overId =>
          if negb (activeId =? overId)%string
          then match moveItem activeId overId (tasks w) with
               | Some ts => Some (setTasks ts w)
               | None => None
               end
          else Some w
      | None => Some w
      end
  | Timeout =>
      match timers w with
      | t :: rest =>
          Some (setTasks (runTimer t (tasks w))
                  (mkApp (tasks w) (newTask w) (selectedCategory w) (localStorage w) rest))
      | [] => Some w
      end
  end.

Fixpoint run (es : list event) (w : App) : option App :=
  match es with
  | [] => Some w
  | e :: es' =>
      match step e w with
      | Some w' => run es' w'
      | None => None
      end
  end.

(** The component after its first render and effect, with [ts] as the
    tasks that the initializer returned. *)
Definition mount (ts : list Task) (storage : gmap string string) : App :=
  setTasks ts (mkApp ts "" physical storage []).

(** A run of creations: [addTask] calls and the timers that they left. *)
Inductive creation : Type :=
| Added (now : Z) (newTask : string) (selectedCategory : Category)
| IsNewCleared (taskId : string).

Definition create (c : creation) (tasks : list Task) : list Task :=
  match c with
  | Added now newTask selectedCategory => addTask now newTask selectedCategory tasks
  | IsNewCleared taskId => clearIsNew taskId tasks
  end.

Definition creates (cs : list creation) (tasks : list Task) : list Task :=
  fold_left (fun ts c => create c ts) cs tasks.

Definition is_blank (s : string) : bool := negb (JS.truthy_string (JS.trim s)).

(** The creations that add a task: those whose text is not blank. *)
Definition adds (cs : list creation) : list Z :=
  flat_map (fun c => match c with
                     | Added now newTask _ => if is_blank newTask then [] else [now]
                     | IsNewCleared _ => []
                     end) cs.

(** ** Vocabulary of the statements *)

Definition ids (tasks : list Task) : list string := map id tasks.

(** The test that the handlers give to [findIndex]. *)
Definition has_id (a : string) : Task -> bool :=
  fun item => (id item =? a)%string.

(** The list without its element at index [n], and the list with [x] put
    at index [n]. *)
Definition remove_at {A} (n : nat) (l : list A) : list A :=
  firstn n l ++ skipn (S n) l.

Definition insert_at {A} (n : nat) (x : A) (l : list A) : list A :=
  firstn n l ++ x :: skipn n l.

(** The persisted record as the specification words it: the four fields
    [id], [text], [completed] and [category], and no other. *)
Definition spec_task_value (t : Task) : JSON.value :=
  JSON.Object
    [ ("id", JSON.Str (id t));
      ("text", JSON.Str (text t));
      ("completed", JSON.Bool (completed t));
      ("category", JSON.Str (Category_name (category t))) ].

Definition spec_tasks_value (tasks : list Task) : JSON.value :=
  JSON.Array (map spec_task_value tasks).

(** A string or a boolean, and the text of a member of an object. *)
Definition is_scalar (v : JSON.value) : bool :=
  match v with
  | JSON.Str _ | JSON.Bool _ => true
  | _ => false
  end.

Definition member_text (m : string * JSON.value) : string :=
  match m with
  | (k, v) => (JSON.quote k ++ ":" ++ JSON.stringify v)%string
  end.

(** An object with one to six members, all of them strings or booleans:
    the shape of a [Task]. *)
Definition is_record (v : JSON.value) : bool :=
  match v with
  | JSON.Object (m :: ms) =>
      forallb (fun m' => is_scalar (snd m')) (m :: ms)
      && (List.length ms <=? 5)%nat
  | _ => false
  end.

(** The number of [Timeout] events in a run. *)
Definition is_timeout (e : event) : bool :=
  match e with
  | Timeout => true
  | _ => false
  end.

Definition timeouts (es : list event) : nat :=
  List.length (List.filter is_timeout es).

(** The state of [localStorage] that the effect leaves. *)
Definition synced (w : App) : Prop :=
  localStorage w !! "tasks"
  = Some (JSON.stringify (tasks_value (persisted (tasks w)))).

(** ** The rest of the component *)

(** The test of the category view, [task.category === category]. *)
Definition Category_eqb (a b : Category) : bool :=
  match a, b with
  | physical, physical | mental, mental
  | spiritual, spiritual | chores, chores => true
  | _, _ => false
  end.

(** [categoryTasks] of the render: the tasks of one category. *)
Definition categoryTasks (c : Category) (tasks : list Task) : list Task :=
  List.filter (fun task => Category_eqb (category task) c) tasks.

(** The sections of the render, one for each category in the order of
    [categories]: [None] where the render returns [null], for a category
    with no task. *)
Definition renderSections (tasks : list Task)
    : list (option (Category * list Task)) :=
  map (fun c =>
         let shownTasks := categoryTasks c tasks in
         if (List.length shownTasks =? 0)%nat then None else Some (c, shownTasks))
      categories.

(** The rows on the screen, from the first section to the last. *)
Definition rows (tasks : list Task) : list Task :=
  flat_map (fun section => match section with
                           | Some (_, shownTasks) => shownTasks
                           | None => []
                           end)
           (renderSections tasks).

(** [SortableTask]: the buttons of a row that have a click handler, its
    one state [showConfirmDelete], and what a click does: the next state
    and the callback that is called, or [None] for a button that the row
    does not show in that state. *)
Inductive button : Type :=
| ToggleButton
| TrashButton
| DeleteButton
| CancelButton.

Inductive intent : Type := OnToggle | OnDelete.

Definition click (b : button) (showConfirmDelete : bool)
    : option (bool * option intent) :=
  match b, showConfirmDelete with
  | ToggleButton, _ => Some (showConfirmDelete, Some OnToggle)
  | DeleteButton, true => Some (showConfirmDelete, Some OnDelete)
  | CancelButton, true => Some (false, None)
  | TrashButton, false => Some (true, None)
  | _, _ => None
  end.

(** A run of clicks on one row: the state at the end and the callbacks
    called, in order. *)
Fixpoint clicks (bs : list button) (showConfirmDelete : bool)
    : option (bool * list intent) :=
  match bs with
  | [] => Some (showConfirmDelete, [])
  | b :: bs' =>
      match click b showConfirmDelete with
      | Some (next, called) =>
          match clicks bs' next with
          | Some (final, calls) =>
              Some (final, match called with
                           | Some i => i :: calls
                           | None => calls
                           end)
          | None => None
          end
      | None => None
      end
  end.

(** The clock values of the [Submit] events of a run. *)
Definition submits (es : list event) : list Z :=
  flat_map (fun e => match e with
                     | Submit now => [now]
                     | _ => []
                     end) es.

(** What no handler writes after the creation: the id, the text and the
    category of a task. *)
Definition core (t : Task) : string * string * Category :=
  (id t, text t, category t).

(** A task as a reload sees it apart from [completed] and [isDeleting]:
    its core and its [isNew] flag. *)
Definition core_isNew (t : Task) : string * string * Category * option bool :=
  (core t, isNew t).

Definition is_removal (t : timer) : bool :=
  match t with
  | RemoveTask _ => true
  | ClearIsNew _ => false
  end.

(** * Properties *)

(** ** Maps over the tasks *)

Section Handlers.

Implicit Types (tasks current : list Task) (taskId : string) (t : Task).

Lemma map_fixes {A} (f : A -> A) (l : list A) :
  (forall x, In x l -> f x = x) -> map f l = l.
Proof.
  intros Hf. rewrite <- (map_id l) at 2.
  apply map_ext_in. exact Hf.
Qed.

Lemma toggle_entry_twice taskId t :
  let flip := fun task =>
    if (id task =? taskId)%string
    then with_completed (negb (completed task)) task else task in
  flip (flip t) = t.
Proof.
  destruct t as [i x c g n d]. cbn.
  destruct (String.eqb_spec i taskId) as [E | E]; cbn.
  - rewrite (proj2 (String.eqb_eq i taskId) E).
    unfold with_completed. cbn. now rewrite negb_involutive.
  - now rewrite (proj2 (String.eqb_neq i taskId) E).
Qed.

Lemma absent_eqb tasks taskId t :
  ~ In taskId (ids tasks) -> In t tasks -> (id t =? taskId)%string = false.
Proof.
  intros Hno Hin. apply String.eqb_neq. intros E. apply Hno.
  unfold ids. rewrite <- E. now apply in_map.
Qed.

Lemma ids_clearIsNew taskId tasks : ids (clearIsNew taskId tasks) = ids tasks.
Proof.
  unfold ids, clearIsNew. rewrite map_map. apply map_ext.
  intros t. now destruct (id t =? taskId)%string.
Qed.

Lemma completed_clearIsNew taskId tasks :
  map completed (clearIsNew taskId tasks) = map completed tasks.
Proof.
  unfold clearIsNew. rewrite map_map. apply map_ext.
  intros t. now destruct (id t =? taskId)%string.
Qed.

Lemma removeTask_absent taskId tasks :
  ~ In taskId (ids (removeTask taskId tasks)).
Proof.
  unfold ids, removeTask. rewrite in_map_iff. intros (t & E & Hin).
  apply filter_In in Hin as [_ Hne].
  apply negb_true_iff, String.eqb_neq in Hne. contradiction.
Qed.

Lemma persisted_not_deleting tasks :
  Forall (fun t => isDeleting t <> Some true) (persisted tasks).
Proof.
  apply List.Forall_forall. intros t Hin. apply filter_In in Hin as [_ H].
  intros E. rewrite E in H. discriminate.
Qed.

Lemma persisted_markDeleting taskId tasks :
  ~ In taskId (ids (persisted (markDeleting taskId tasks))).
Proof.
  unfold ids, persisted, markDeleting.
  rewrite in_map_iff. intros (t & E & Hin).
  apply filter_In in Hin as [Hin Hflag].
  apply in_map_iff in Hin as (t0 & Et & _).
  destruct (String.eqb_spec (id t0) taskId) as [E0 | E0]; subst t.
  - discriminate.
  - contradiction.
Qed.

End Handlers.

(** ** Indices, [findIndex] and [splice] *)

Section Indices.

Context {A : Type}.
Implicit Types (l m : list A) (p : A -> bool) (i j k : nat).

Lemma findIndex_range p l :
  JS.findIndex p l = -1
  \/ 0 <= JS.findIndex p l < Z.of_nat (List.length l).
Proof.
  induction l as [| x r IH]; cbn [JS.findIndex List.length].
  - now left.
  - destruct (p x).
    + right. lia.
    + destruct IH as [E | R].
      * rewrite E. now left.
      * right. destruct (JS.findIndex p r); lia.
Qed.

Lemma findIndex_cons_false p x l :
  p x = false ->
  JS.findIndex p (x :: l)
  = if JS.findIndex p l <? 0 then -1 else JS.findIndex p l + 1.
Proof.
  intros E. cbn [JS.findIndex]. rewrite E.
  destruct (findIndex_range p l) as [H | H].
  - now rewrite H.
  - destruct (JS.findIndex p l) eqn:F; try lia; reflexivity.
Qed.

(** A found index points at the first element that satisfies [p]. *)
Lemma findIndex_found p l i :
  JS.findIndex p l = Z.of_nat i ->
  exists x, nth_error l i = Some x /\ p x = true
            /\ forall k y, (k < i)%nat -> nth_error l k = Some y -> p y = false.
Proof.
  revert i. induction l as [| x r IH]; intros i.
  - cbn. lia.
  - destruct (p x) eqn:E.
    + cbn [JS.findIndex]. rewrite E. intros H.
      assert (i = 0%nat) by lia. subst i.
      exists x. repeat split; trivial. intros k y Hk. lia.
    + rewrite (findIndex_cons_false p x r E).
      destruct (JS.findIndex p r <? 0) eqn:N; [lia |].
      apply Z.ltb_ge in N. intros H.
      destruct i as [| i']; [lia |].
      destruct (IH i') as (y & Hy & Py & Hfirst); [lia |].
      exists y. repeat split; trivial.
      intros [| k] z Hk Hz; cbn in Hz.
      * now inversion Hz; subst.
      * apply (Hfirst k); [lia | exact Hz].
Qed.

Lemma findIndex_absent p l :
  JS.findIndex p l = -1 <-> forall x, In x l -> p x = false.
Proof.
  induction l as [| x r IH].
  - cbn. split; [contradiction | reflexivity].
  - destruct (p x) eqn:E.
    + cbn [JS.findIndex]. rewrite E. split; [lia |].
      intros H. specialize (H x (or_introl eq_refl)). congruence.
    + rewrite (findIndex_cons_false p x r E).
      destruct (findIndex_range p r) as [H | H].
      * rewrite H. cbn. split; [| reflexivity].
        intros _ y [<- | Hy]; [exact E | now apply IH].
      * destruct (JS.findIndex p r <? 0) eqn:N; [lia |].
        split; [lia |]. intros Hall.
        assert (JS.findIndex p r = -1) by (apply IH; intros; apply Hall; now right).
        lia.
Qed.

(** The first element that satisfies [p] is the one that is found. *)
Lemma findIndex_first p l i x :
  nth_error l i = Some x -> p x = true ->
  (forall k y, (k < i)%nat -> nth_error l k = Some y -> p y = false) ->
  JS.findIndex p l = Z.of_nat i.
Proof.
  revert i. induction l as [| y r IH]; intros i Hx Px Hfirst.
  - now destruct i.
  - destruct i as [| i']; cbn in Hx.
    + inversion Hx; subst. cbn [JS.findIndex]. now rewrite Px.
    + assert (Py : p y = false) by (apply (Hfirst 0%nat); [lia | reflexivity]).
      rewrite (findIndex_cons_false p y r Py).
      rewrite (IH i' Hx Px).
      * destruct (Z.of_nat i' <? 0) eqn:N; lia.
      * intros k z Hk Hz. apply (Hfirst (S k)); [lia | exact Hz].
Qed.

Lemma length_remove_at i l :
  (i < List.length l)%nat ->
  List.length (remove_at i l) = (List.length l - 1)%nat.
Proof.
  intros H. unfold remove_at.
  rewrite length_app, length_firstn, length_skipn. lia.
Qed.

Lemma remove_insert_at j x m :
  (j <= List.length m)%nat -> remove_at j (insert_at j x m) = m.
Proof.
  intros H. unfold remove_at, insert_at.
  assert (L : List.length (firstn j m) = j) by (rewrite length_firstn; lia).
  rewrite firstn_app, L, Nat.sub_diag. cbn [firstn].
  rewrite app_nil_r, firstn_firstn, Nat.min_id.
  rewrite skipn_app, L.
  replace (S j - j)%nat with 1%nat by lia. cbn [skipn].
  rewrite (skipn_all2 (firstn j m)) by lia. rewrite skipn_O.
  apply firstn_skipn.
Qed.

Lemma skipn_nth_error i l x :
  nth_error l i = Some x -> skipn i l = x :: skipn (S i) l.
Proof.
  revert l. induction i as [| i IH]; intros [| y r] H; cbn in H; try discriminate.
  - now inversion H.
  - cbn [skipn]. now apply IH.
Qed.

Lemma insert_remove_at i l x :
  nth_error l i = Some x -> insert_at i x (remove_at i l) = l.
Proof.
  intros H. unfold insert_at, remove_at.
  assert (Hi : (i < List.length l)%nat) by (apply nth_error_Some; congruence).
  assert (L : List.length (firstn i l) = i) by (rewrite length_firstn; lia).
  rewrite firstn_app, L, Nat.sub_diag. cbn [firstn].
  rewrite app_nil_r, firstn_firstn, Nat.min_id.
  rewrite skipn_app, L, Nat.sub_diag. cbn [skipn].
  rewrite (skipn_all2 (firstn i l)) by lia. rewrite skipn_O. cbn [app].
  rewrite <- (skipn_nth_error i l x H). apply firstn_skipn.
Qed.

Lemma nth_error_insert_at j x m :
  (j <= List.length m)%nat -> nth_error (insert_at j x m) j = Some x.
Proof.
  intros H. unfold insert_at.
  assert (L : List.length (firstn j m) = j) by (rewrite length_firstn; lia).
  rewrite nth_error_app2 by lia. rewrite L, Nat.sub_diag. reflexivity.
Qed.

Lemma insert_at_Permutation j x m : Permutation (insert_at j x m) (x :: m).
Proof.
  unfold insert_at. rewrite <- (firstn_skipn j m) at 3.
  symmetry. apply Permutation_middle.
Qed.

Lemma remove_at_Permutation i l x :
  nth_error l i = Some x -> Permutation (x :: remove_at i l) l.
Proof.
  intros H. rewrite <- (insert_remove_at i l x H) at 2.
  symmetry. apply insert_at_Permutation.
Qed.

(** [splice(i, 1)] takes the element at a valid index out. *)
Lemma splice_remove i l x :
  nth_error l i = Some x ->
  JS.splice (Z.of_nat i) 1 [] l = ([x], remove_at i l).
Proof.
  intros H.
  assert (Hi : (i < List.length l)%nat) by (apply nth_error_Some; congruence).
  unfold JS.splice, JS.actualStart, remove_at.
  destruct (Z.of_nat i <? 0) eqn:N; [lia |].
  replace (Z.min (Z.of_nat i) (Z.of_nat (List.length l))) with (Z.of_nat i) by lia.
  replace (Z.min (Z.max 1 0) (Z.of_nat (List.length l) - Z.of_nat i)) with 1 by lia.
  rewrite Nat2Z.id.
  replace (Z.to_nat (Z.of_nat i + 1)) with (S i) by lia.
  replace (Z.to_nat 1) with 1%nat by lia.
  rewrite (skipn_nth_error i l x H). reflexivity.
Qed.

(** [splice(j, 0, x)] puts [x] at a valid index. *)
Lemma splice_insert j x m :
  (j <= List.length m)%nat ->
  snd (JS.splice (Z.of_nat j) 0 [x] m) = insert_at j x m.
Proof.
  intros H. unfold JS.splice, JS.actualStart, insert_at. cbn [snd].
  destruct (Z.of_nat j <? 0) eqn:N; [lia |].
  replace (Z.min (Z.of_nat j) (Z.of_nat (List.length m))) with (Z.of_nat j) by lia.
  replace (Z.min (Z.max 0 0) (Z.of_nat (List.length m) - Z.of_nat j)) with 0 by lia.
  rewrite Z.add_0_r, Nat2Z.id. reflexivity.
Qed.

End Indices.

(** ** Reordering *)

Section Reorder.

Implicit Types (items : list Task) (a b : string) (i j : nat) (x c : Task).

Lemma findIndex_In a items :
  In a (ids items) -> exists i, JS.findIndex (has_id a) items = Z.of_nat i.
Proof.
  intros Hin. destruct (findIndex_range (has_id a) items) as [E | R].
  - apply in_map_iff in Hin as (t & <- & Ht).
    pose proof (proj1 (findIndex_absent _ _) E t Ht) as F.
    unfold has_id in F. now rewrite String.eqb_refl in F.
  - exists (Z.to_nat (JS.findIndex (has_id a) items)). lia.
Qed.

(** With distinct ids, the id of the task at an index finds that index. *)
Lemma findIndex_NoDup items i c :
  List.NoDup (ids items) -> nth_error items i = Some c ->
  JS.findIndex (has_id (id c)) items = Z.of_nat i.
Proof.
  intros Hnd Hc. apply (findIndex_first _ _ _ c Hc).
  - apply String.eqb_refl.
  - intros k y Hk Hy. apply String.eqb_neq. intros E.
    assert (k = i); [| lia].
    apply (proj1 (NoDup_nth_error (ids items)) Hnd).
    + unfold ids. rewrite length_map. apply nth_error_Some. congruence.
    + unfold ids. rewrite !nth_error_map, Hy, Hc. cbn. now rewrite E.
Qed.

Lemma moveItem_found a b items i j x :
  JS.findIndex (has_id a) items = Z.of_nat i ->
  JS.findIndex (has_id b) items = Z.of_nat j ->
  nth_error items i = Some x ->
  moveItem a b items = Some (insert_at j x (remove_at i items)).
Proof.
  intros Hi Hj Hx. unfold moveItem. fold (has_id a) (has_id b).
  rewrite Hi, Hj, (splice_remove i items x Hx).
  rewrite splice_insert; [reflexivity |].
  destruct (findIndex_found _ _ _ Hj) as (y & Hy & _).
  assert ((j < List.length items)%nat) by (apply nth_error_Some; congruence).
  assert ((i < List.length items)%nat) by (apply nth_error_Some; congruence).
  rewrite length_remove_at; lia.
Qed.

Lemma moved_Permutation items i j x :
  nth_error items i = Some x ->
  Permutation (insert_at j x (remove_at i items)) items.
Proof.
  intros Hx. rewrite insert_at_Permutation. now apply remove_at_Permutation.
Qed.

Lemma moved_length items i j x :
  nth_error items i = Some x ->
  List.length (insert_at j x (remove_at i items)) = List.length items.
Proof. intros Hx. apply Permutation_length. now apply moved_Permutation. Qed.

End Reorder.

(** ** Reading back what [JSON.stringify] wrote *)

Section Strings.

Implicit Types (s r rest : string) (c : ascii).

Lemma append_assoc s r rest : ((s ++ r) ++ rest = s ++ (r ++ rest))%string.
Proof. induction s as [| c s IH]; cbn; [reflexivity | now rewrite IH]. Qed.

Lemma append_nil_r s : (s ++ "")%string = s.
Proof. induction s as [| c s IH]; cbn; [reflexivity | now rewrite IH]. Qed.

Lemma length_append s r :
  String.length (s ++ r) = (String.length s + String.length r)%nat.
Proof. induction s as [| c s IH]; cbn; [reflexivity | now rewrite IH]. Qed.

(** Each code unit is read back from what [quote_char] wrote for it. *)
Lemma parse_chars_quote_char c rest :
  JSON.parse_chars (JSON.quote_char c ++ rest)
  = JSON.bind (JSON.parse_chars rest)
      (fun '(cs, r) => JSON.Ok (String c cs, r)).
Proof. destruct c as [[] [] [] [] [] [] [] []]; reflexivity. Qed.

Lemma parse_chars_quote_body s rest :
  JSON.parse_chars (JSON.quote_body s ++ String DQ rest) = JSON.Ok (s, rest).
Proof.
  induction s as [| c s IH]; cbn [JSON.quote_body].
  - reflexivity.
  - rewrite append_assoc, parse_chars_quote_char, IH. reflexivity.
Qed.

Lemma parse_chars_quote s rest :
  exists body,
    (JSON.quote s ++ rest)%string = String DQ body
    /\ JSON.parse_chars body = JSON.Ok (s, rest).
Proof.
  exists (JSON.quote_body s ++ String DQ rest)%string. split.
  - unfold JSON.quote. cbn. now rewrite append_assoc.
  - apply parse_chars_quote_body.
Qed.

End Strings.

Section Reading.

Implicit Types (n : nat) (v : JSON.value) (rest : string)
  (m : string * JSON.value) (ms : list (string * JSON.value))
  (t : Task) (ts : list Task).

Lemma parse_value_scalar n v rest :
  is_scalar v = true ->
  JSON.parse_value (S n) (JSON.stringify v ++ rest) = JSON.Ok (v, rest).
Proof.
  destruct v as [| b | lit | s | vs | ms]; try discriminate; intros _.
  - destruct b; reflexivity.
  - cbn [JSON.stringify].
    destruct (parse_chars_quote s rest) as (body & -> & Hbody).
    cbn. now rewrite Hbody.
Qed.

(** The readers unfold by the equations below only. *)
#[local] Arguments JSON.parse_value : simpl never.
#[local] Arguments JSON.parse_elements : simpl never.
#[local] Arguments JSON.parse_members : simpl never.
#[local] Arguments JSON.join : simpl never.

Lemma join_one (sep x : string) : JSON.join sep [x] = x.
Proof. reflexivity. Qed.

Lemma join_cons (sep x y : string) (l : list string) :
  JSON.join sep (x :: y :: l) = (x ++ sep ++ JSON.join sep (y :: l))%string.
Proof. reflexivity. Qed.

Lemma parse_members_quote n body :
  JSON.parse_members (S n) (String DQ body)
  = JSON.bind (JSON.parse_chars body) (fun '(k, r1) =>
      match JSON.skip_ws r1 with
      | String c r2 =>
          if (c =? ":")%char then
            JSON.bind (JSON.parse_value n r2) (fun '(v, r3) =>
              match JSON.skip_ws r3 with
              | String d r4 =>
                  if (d =? ",")%char
                  then JSON.bind (JSON.parse_members n r4)
                         (fun '(ms, rest) => JSON.Ok ((k, v) :: ms, rest))
                  else if (d =? "}")%char then JSON.Ok ([(k, v)], r4)
                  else JSON.Fail JSON.SyntaxError
              | EmptyString => JSON.Fail JSON.SyntaxError
              end)
          else JSON.Fail JSON.SyntaxError
      | EmptyString => JSON.Fail JSON.SyntaxError
      end).
Proof. reflexivity. Qed.

Lemma parse_elements_S n s :
  JSON.parse_elements (S n) s
  = JSON.bind (JSON.parse_value n s) (fun '(v, r) =>
      match JSON.skip_ws r with
      | String c r' =>
          if (c =? ",")%char
          then JSON.bind (JSON.parse_elements n r')
                 (fun '(vs, rest) => JSON.Ok (v :: vs, rest))
          else if (c =? "]")%char then JSON.Ok ([v], r')
          else JSON.Fail JSON.SyntaxError
      | EmptyString => JSON.Fail JSON.SyntaxError
      end).
Proof. reflexivity. Qed.

Lemma parse_value_brace n r :
  JSON.parse_value (S n) (String "{" r)
  = match JSON.after "}" (JSON.skip_ws r) with
    | Some r' => JSON.Ok (JSON.Object [], r')
    | None => JSON.bind (JSON.parse_members n r)
                (fun '(ms, rest) => JSON.Ok (JSON.Object ms, rest))
    end.
Proof. reflexivity. Qed.

Lemma parse_value_bracket n r :
  JSON.parse_value (S n) (String "[" r)
  = match JSON.after "]" (JSON.skip_ws r) with
    | Some r' => JSON.Ok (JSON.Array [], r')
    | None => JSON.bind (JSON.parse_elements n r)
                (fun '(vs, rest) => JSON.Ok (JSON.Array vs, rest))
    end.
Proof. reflexivity. Qed.

(** One member, then a comma and the other members, or the brace. *)
Lemma parse_member n k v tail :
  is_scalar v = true ->
  JSON.parse_members (S (S n)) (member_text (k, v) ++ tail)
  = match JSON.skip_ws tail with
    | String d r4 =>
        if (d =? ",")%char
        then JSON.bind (JSON.parse_members (S n) r4)
               (fun '(ms, rest) => JSON.Ok ((k, v) :: ms, rest))
        else if (d =? "}")%char then JSON.Ok ([(k, v)], r4)
        else JSON.Fail JSON.SyntaxError
    | EmptyString => JSON.Fail JSON.SyntaxError
    end.
Proof.
  intros Hv. unfold member_text.
  rewrite !append_assoc.
  destruct (parse_chars_quote k (":" ++ JSON.stringify v ++ tail))
    as (body & -> & Hbody).
  rewrite parse_members_quote, Hbody. cbn.
  rewrite (parse_value_scalar n v tail Hv). reflexivity.
Qed.

Lemma parse_members_scalars ms : forall m n rest,
  Forall (fun m' => is_scalar (snd m') = true) (m :: ms) ->
  (List.length ms + 2 <= n)%nat ->
  JSON.parse_members n
    (JSON.join "," (map member_text (m :: ms)) ++ String "}" rest)
  = JSON.Ok (m :: ms, rest).
Proof.
  induction ms as [| m' ms IH]; intros [k v] n rest Hall Hn;
    destruct n as [| [| n]]; try (cbn in Hn; lia);
    inversion Hall as [| ? ? Hv Hrest]; subst; cbn [snd] in Hv.
  - cbn [map]. rewrite join_one, (parse_member n k v _ Hv). reflexivity.
  - rewrite 2!map_cons, join_cons, <- map_cons.
    rewrite !append_assoc, (parse_member n k v _ Hv). cbn.
    assert (Hn' : (List.length ms + 2 <= S n)%nat) by (cbn in Hn; lia).
    pose proof (IH m' (S n) rest Hrest Hn') as E. cbn [map] in E.
    now rewrite E.
Qed.

Lemma stringify_object ms :
  JSON.stringify (JSON.Object ms)
  = String "{" (JSON.join "," (map member_text ms) ++ "}")%string.
Proof. reflexivity. Qed.

Lemma stringify_array vs :
  JSON.stringify (JSON.Array vs)
  = String "[" (JSON.join "," (map JSON.stringify vs) ++ "]")%string.
Proof. reflexivity. Qed.

Lemma members_start m ms tail :
  exists body,
    (JSON.join "," (map member_text (m :: ms)) ++ tail)%string
    = String DQ body.
Proof.
  destruct m as [k v]. destruct ms as [| m' ms]; cbn [map].
  - rewrite join_one. unfold member_text, JSON.quote.
    cbn [String.append]. eauto.
  - rewrite join_cons. unfold member_text at 1. unfold JSON.quote.
    cbn [String.append]. eauto.
Qed.

Lemma is_record_inv v :
  is_record v = true ->
  exists m ms, v = JSON.Object (m :: ms)
               /\ Forall (fun m' => is_scalar (snd m') = true) (m :: ms)
               /\ (List.length ms <= 5)%nat.
Proof.
  destruct v as [| | | | | [| m ms]]; try discriminate.
  intros H. apply andb_true_iff in H as [Hall Hlen].
  exists m, ms. repeat split.
  - apply List.Forall_forall. intros x Hx.
    exact (proj1 (forallb_forall _ _) Hall x Hx).
  - now apply Nat.leb_le.
Qed.

Lemma parse_value_record n v rest :
  is_record v = true -> (8 <= n)%nat ->
  JSON.parse_value n (JSON.stringify v ++ rest) = JSON.Ok (v, rest).
Proof.
  intros Hv Hn. destruct (is_record_inv v Hv) as (m & ms & -> & Hall & Hlen).
  destruct n as [| n]; [lia |].
  rewrite stringify_object. cbn [String.append].
  rewrite parse_value_brace, append_assoc.
  destruct (members_start m ms ("}" ++ rest)) as (body & E).
  rewrite E. cbn. rewrite <- E. cbn [String.append].
  rewrite parse_members_scalars; [reflexivity | exact Hall | lia].
Qed.

Lemma record_start v tail :
  is_record v = true ->
  exists body, (JSON.stringify v ++ tail)%string = String "{" body.
Proof.
  intros Hv. destruct (is_record_inv v Hv) as (m & ms & -> & _).
  rewrite stringify_object. cbn [String.append]. eauto.
Qed.

Lemma parse_elements_records vs : forall v n rest,
  Forall (fun v' => is_record v' = true) (v :: vs) ->
  (List.length vs + 9 <= n)%nat ->
  JSON.parse_elements n
    (JSON.join "," (map JSON.stringify (v :: vs)) ++ String "]" rest)
  = JSON.Ok (v :: vs, rest).
Proof.
  induction vs as [| v' vs IH]; intros v n rest Hall Hn;
    destruct n as [| n]; try (cbn in Hn; lia);
    inversion Hall as [| ? ? Hv Hrest]; subst;
    rewrite parse_elements_S.
  - cbn [map]. rewrite join_one.
    rewrite (parse_value_record n v _ Hv) by (cbn in Hn; lia).
    reflexivity.
  - rewrite 2!map_cons, join_cons, <- map_cons, !append_assoc.
    rewrite (parse_value_record n v _ Hv) by (cbn in Hn; lia).
    assert (Hn' : (List.length vs + 9 <= n)%nat) by (cbn in Hn; lia).
    pose proof (IH v' n rest Hrest Hn') as E. cbn [map] in E.
    cbn. now rewrite E.
Qed.

Lemma parse_value_records n vs rest :
  Forall (fun v => is_record v = true) vs ->
  (List.length vs + 10 <= n)%nat ->
  JSON.parse_value n (JSON.stringify (JSON.Array vs) ++ rest)
  = JSON.Ok (JSON.Array vs, rest).
Proof.
  intros Hall Hn. destruct n as [| n]; [lia |].
  rewrite stringify_array. cbn [String.append].
  rewrite parse_value_bracket, append_assoc.
  destruct vs as [| v vs].
  - reflexivity.
  - inversion Hall as [| ? ? Hv _]; subst.
    assert (exists body,
      (JSON.join "," (map JSON.stringify (v :: vs)) ++ "]" ++ rest)%string
      = String "{" body) as (body & E).
    { destruct vs as [| v' vs]; cbn [map].
      - rewrite join_one. apply (record_start v _ Hv).
      - rewrite join_cons, append_assoc. apply (record_start v _ Hv). }
    rewrite E. cbn. rewrite <- E. cbn [String.append].
    rewrite parse_elements_records; [reflexivity | exact Hall | cbn in Hn; lia].
Qed.

Lemma length_record v :
  is_record v = true -> (3 <= String.length (JSON.stringify v))%nat.
Proof.
  intros Hv. destruct (is_record_inv v Hv) as (m & ms & -> & _).
  rewrite stringify_object.
  destruct (members_start m ms EmptyString) as (body & E).
  rewrite append_nil_r in E. rewrite E.
  cbn [String.length String.append]. rewrite length_append.
  cbn [String.length]. lia.
Qed.

Lemma length_join_records vs :
  Forall (fun v => is_record v = true) vs ->
  (3 * List.length vs <= String.length (JSON.join "," (map JSON.stringify vs)))%nat.
Proof.
  induction vs as [| v [| v' vs] IH]; intros Hall.
  - cbn. lia.
  - inversion Hall as [| ? ? Hv _]; subst. cbn [map]. rewrite join_one.
    pose proof (length_record v Hv). cbn [List.length]. lia.
  - inversion Hall as [| ? ? Hv Hrest]; subst.
    rewrite 2!map_cons, join_cons, <- map_cons, !length_append.
    pose proof (length_record v Hv). specialize (IH Hrest).
    cbn [List.length] in *. lia.
Qed.

(** [JSON.parse] reads an array of records back from its text. *)
Lemma parse_stringify_records vs :
  Forall (fun v => is_record v = true) vs ->
  JSON.parse (JSON.stringify (JSON.Array vs)) = JSON.Ok (JSON.Array vs).
Proof.
  intros Hall. destruct vs as [| v0 vs0] eqn:Evs; [reflexivity |].
  rewrite <- Evs in *. unfold JSON.parse.
  set (text := JSON.stringify (JSON.Array vs)).
  assert (Hfuel : (List.length vs + 10 <= 2 * String.length text + 2)%nat).
  { subst text. rewrite stringify_array. cbn [String.length].
    rewrite length_append. pose proof (length_join_records vs Hall).
    cbn [String.length]. rewrite Evs in *. cbn [List.length] in *. lia. }
  pose proof (parse_value_records _ vs EmptyString Hall Hfuel) as E.
  fold text in E. rewrite append_nil_r in E. rewrite E. reflexivity.
Qed.

Lemma task_value_record t : is_record (task_value t) = true.
Proof.
  unfold task_value. destruct (isNew t), (isDeleting t); reflexivity.
Qed.

Lemma Category_name_inj g g' : Category_name g = Category_name g' -> g = g'.
Proof. destruct g, g'; cbn; intros H; try reflexivity; discriminate H. Qed.

(** A task is known from its value: what is read back names the tasks. *)
Lemma task_value_inj t u : task_value t = task_value u -> t = u.
Proof.
  destruct t as [i x c g n d], u as [i' x' c' g' n' d'].
  unfold task_value. cbn [id text completed category isNew isDeleting].
  destruct n, d, n', d'; cbn; intros H; inversion H; subst;
    repeat match goal with
      | E : Category_name _ = Category_name _ |- _ =>
          apply Category_name_inj in E; subst
      end;
    reflexivity.
Qed.

Lemma tasks_value_inj ts us : tasks_value ts = tasks_value us -> ts = us.
Proof.
  unfold tasks_value. intros H. injection H as H.
  revert us H. induction ts as [| t ts IH]; intros [| u us] H; cbn [map] in H;
    try discriminate; [reflexivity |].
  assert (Ht : task_value t = task_value u) by congruence.
  assert (Hr : map task_value ts = map task_value us) by congruence.
  apply task_value_inj in Ht. subst. f_equal. now apply IH.
Qed.

Lemma parse_stringify_tasks ts :
  JSON.parse (JSON.stringify (tasks_value ts)) = JSON.Ok (tasks_value ts).
Proof.
  apply parse_stringify_records. apply List.Forall_forall.
  intros v Hv. apply in_map_iff in Hv as (t & <- & _).
  apply task_value_record.
Qed.

Lemma stringify_tasks_truthy ts :
  JS.truthy_string (JSON.stringify (tasks_value ts)) = true.
Proof. unfold tasks_value. now rewrite stringify_array. Qed.

(** What the initializer finds after the effect has run. *)
Lemma initTasks_saveTasks ts (storage : gmap string string) :
  initTasks (saveTasks ts storage) = JSON.Ok (tasks_value (persisted ts)).
Proof.
  unfold initTasks, saveTasks. rewrite lookup_insert_eq.
  rewrite stringify_tasks_truthy. apply parse_stringify_tasks.
Qed.

End Reading.

(** ** [JSON.parse] always answers *)

Section Totality.

Implicit Types (n : nat) (s r rest : string).

#[local] Arguments JSON.parse_value : simpl never.
#[local] Arguments JSON.parse_elements : simpl never.
#[local] Arguments JSON.parse_members : simpl never.
#[local] Arguments JSON.parse_chars : simpl never.

Ltac break_bind H :=
  match type of H with
  | JSON.bind ?m _ = _ =>
      let E := fresh "E" in
      destruct m as [[? ?] | ?] eqn:E; cbn [JSON.bind] in H
  end.

Ltac break_if H :=
  match type of H with
  | (if ?b then _ else _) = _ => destruct b eqn:?
  end.

Ltac break_match H :=
  match type of H with
  | match ?x with _ => _ end = _ => destruct x eqn:?
  end.

Ltac break H := first [break_bind H | break_if H | break_match H].

Lemma skip_ws_length s : (String.length (JSON.skip_ws s) <= String.length s)%nat.
Proof.
  induction s as [| c s IH]; cbn; [lia |].
  destruct (JSON.is_ws c); cbn; lia.
Qed.

Lemma parse_chars_cons c r :
  JSON.parse_chars (String c r)
  = if (c =? DQ)%char then JSON.Ok (EmptyString, r)
    else if (c =? "\")%char then
      match r with
      | EmptyString => JSON.Fail JSON.SyntaxError
      | String e r' =>
          let simple (d : ascii) :=
            JSON.bind (JSON.parse_chars r')
              (fun '(cs, rest) => JSON.Ok (String d cs, rest)) in
          if (e =? DQ)%char then simple DQ
          else if (e =? "\")%char then simple "\"%char
          else if (e =? "/")%char then simple "/"%char
          else if (e =? "b")%char then simple "008"%char
          else if (e =? "f")%char then simple "012"%char
          else if (e =? "n")%char then simple "010"%char
          else if (e =? "r")%char then simple "013"%char
          else if (e =? "t")%char then simple "009"%char
          else if (e =? "u")%char then
            match r' with
            | String h1 (String h2 (String h3 (String h4 r''))) =>
                match JSON.hex4 h1 h2 h3 h4 with
                | Some n =>
                    if (n <? 256)%N
                    then JSON.bind (JSON.parse_chars r'')
                           (fun '(cs, rest) =>
                              JSON.Ok (String (ascii_of_N n) cs, rest))
                    else JSON.Fail JSON.Unrepresentable
                | None => JSON.Fail JSON.SyntaxError
                end
            | _ => JSON.Fail JSON.SyntaxError
            end
          else JSON.Fail JSON.SyntaxError
      end
    else if (N_of_ascii c <? 32)%N then JSON.Fail JSON.SyntaxError
    else JSON.bind (JSON.parse_chars r)
           (fun '(cs, rest) => JSON.Ok (String c cs, rest)).
Proof. reflexivity. Qed.

Lemma parse_chars_shorter n : forall s x r,
  (String.length s <= n)%nat ->
  JSON.parse_chars s = JSON.Ok (x, r) ->
  (String.length r < String.length s)%nat.
Proof.
  induction n as [| n IH]; intros [| c s] x r Hn H;
    try discriminate H; cbn [String.length] in *; try lia.
  rewrite parse_chars_cons in H. cbv zeta in H.
  repeat (break H; try discriminate H);
    cbn [String.length] in *;
    try (injection H as <- <-; lia);
    match goal with
    | E : JSON.parse_chars _ = JSON.Ok _ |- _ =>
        apply IH in E; [injection H as <- <-; cbn [String.length] in *; lia
                       | cbn [String.length] in *; lia]
    end.
Qed.

Lemma parse_chars_lt s x r :
  JSON.parse_chars s = JSON.Ok (x, r) ->
  (String.length r < String.length s)%nat.
Proof. apply (parse_chars_shorter (String.length s)). lia. Qed.

Lemma parse_chars_fuel s : JSON.parse_chars s <> JSON.Fail JSON.OutOfFuel.
Proof.
  remember (String.length s) as n eqn:Hn.
  assert (Hle : (String.length s <= n)%nat) by lia. clear Hn.
  revert s Hle. induction n as [| n IH]; intros [| c s] Hle;
    try discriminate; cbn [String.length] in *; try lia.
  rewrite parse_chars_cons. cbv zeta. intros H.
  repeat (break H; try discriminate H);
    match goal with
    | E : JSON.parse_chars ?x = JSON.Fail _ |- _ =>
        injection H as ->; apply (IH x); [cbn [String.length] in *; lia | exact E]
    end.
Qed.

Lemma span_digits_length s :
  (String.length (snd (JSON.span_digits s)) <= String.length s)%nat.
Proof.
  induction s as [| c s IH]; cbn; [lia |].
  destruct (JSON.is_digit c); cbn; [| lia].
  destruct (JSON.span_digits s) as [ds rest]. cbn in *. lia.
Qed.

Lemma parse_int_shorter s i r :
  JSON.parse_int s = JSON.Ok (i, r) -> (String.length r < String.length s)%nat.
Proof.
  destruct s as [| c s]; cbn; [discriminate |].
  pose proof (span_digits_length s) as L.
  destruct (JSON.span_digits s) as [ds rest]. cbn in L.
  intros H. repeat (break H; try discriminate H);
    injection H as <- <-; lia.
Qed.

Lemma parse_frac_length s f r :
  JSON.parse_frac s = JSON.Ok (f, r) -> (String.length r <= String.length s)%nat.
Proof.
  destruct s as [| c s]; cbn.
  - intros H. injection H as <- <-. cbn. lia.
  - pose proof (span_digits_length s) as L.
    destruct (JSON.span_digits s) as [ds rest]. cbn in L.
    intros H. repeat (break H; try discriminate H);
      injection H as <- <-; cbn; lia.
Qed.

Lemma parse_exp_length s e r :
  JSON.parse_exp s = JSON.Ok (e, r) -> (String.length r <= String.length s)%nat.
Proof.
  destruct s as [| c s]; cbn.
  - intros H. injection H as <- <-. cbn. lia.
  - destruct ((c =? "e")%char || (c =? "E")%char).
    + destruct s as [| g s'].
      * cbn. discriminate.
      * destruct ((g =? "+")%char || (g =? "-")%char).
        -- pose proof (span_digits_length s') as L.
           destruct (JSON.span_digits s') as [ds rest]. cbn in L.
           intros H. repeat (break H; try discriminate H);
             injection H as <- <-; cbn; lia.
        -- pose proof (span_digits_length (String g s')) as L.
           destruct (JSON.span_digits (String g s')) as [ds rest]. cbn in L.
           intros H. repeat (break H; try discriminate H);
             injection H as <- <-; cbn; lia.
    + intros H. injection H as <- <-. cbn. lia.
Qed.

Lemma parse_number_shorter s lit r :
  JSON.parse_number s = JSON.Ok (lit, r) ->
  (String.length r < String.length s)%nat.
Proof.
  unfold JSON.parse_number.
  set (p := match s with
            | String c r0 =>
                if (c =? "-")%char then (String c EmptyString, r0) else (EmptyString, s)
            | EmptyString => (EmptyString, s)
            end).
  assert (Hp : (String.length (snd p) <= String.length s)%nat).
  { subst p. destruct s as [| c r0]; cbn; [lia |].
    destruct (c =? "-")%char; cbn; lia. }
  destruct p as [sign s1]. cbn [snd] in Hp. intros H.
  break_bind H; [| discriminate H].
  break_bind H; [| discriminate H].
  break_bind H; [| discriminate H].
  injection H as <- <-.
  match goal with E : JSON.parse_int _ = _ |- _ => apply parse_int_shorter in E end.
  match goal with E : JSON.parse_frac _ = _ |- _ => apply parse_frac_length in E end.
  match goal with E : JSON.parse_exp _ = _ |- _ => apply parse_exp_length in E end.
  lia.
Qed.

Lemma parse_exp_fuel s : JSON.parse_exp s <> JSON.Fail JSON.OutOfFuel.
Proof.
  destruct s as [| c s]; cbn; [discriminate |].
  destruct ((c =? "e")%char || (c =? "E")%char); [| discriminate].
  destruct s as [| g s']; [cbn; discriminate |].
  destruct ((g =? "+")%char || (g =? "-")%char).
  - destruct (JSON.span_digits s') as [[| ? ?] ?]; discriminate.
  - destruct (JSON.span_digits (String g s')) as [[| ? ?] ?]; discriminate.
Qed.

Lemma parse_number_fuel s : JSON.parse_number s <> JSON.Fail JSON.OutOfFuel.
Proof.
  unfold JSON.parse_number.
  destruct (match s with
            | String c r0 =>
                if (c =? "-")%char then (String c EmptyString, r0) else (EmptyString, s)
            | EmptyString => (EmptyString, s)
            end) as [sign s1].
  destruct (JSON.parse_int s1) as [[i s2] | f] eqn:Ei; cbn [JSON.bind].
  - destruct (JSON.parse_frac s2) as [[fr s3] | f] eqn:Ef; cbn [JSON.bind].
    + pose proof (parse_exp_fuel s3).
      destruct (JSON.parse_exp s3) as [[e s4] | f]; cbn [JSON.bind]; congruence.
    + intros H. injection H as ->. revert Ef.
      destruct s2 as [| c s2]; cbn; [discriminate |].
      destruct (c =? ".")%char; [| discriminate].
      destruct (JSON.span_digits s2) as [[| ? ?] ?]; discriminate.
  - intros H. injection H as ->. revert Ei.
    destruct s1 as [| c s1]; cbn; [discriminate |].
    destruct (c =? "0")%char; [discriminate |].
    destruct (JSON.is_digit c); [| discriminate].
    destruct (JSON.span_digits s1); discriminate.
Qed.

Lemma strip_prefix_length p s r :
  JSON.strip_prefix p s = Some r ->
  (String.length r + String.length p = String.length s)%nat.
Proof.
  revert s. induction p as [| a p IH]; intros [| b s] H; cbn in *;
    try discriminate; try (injection H as <-; cbn; lia).
  destruct (a =? b)%char; [| discriminate].
  apply IH in H. lia.
Qed.

Lemma parse_literal_shorter name v0 s v r :
  (0 < String.length name)%nat ->
  JSON.parse_literal name v0 s = JSON.Ok (v, r) ->
  (String.length r < String.length s)%nat.
Proof.
  unfold JSON.parse_literal. intros Hname H.
  destruct (JSON.strip_prefix name s) as [rest |] eqn:E; [| discriminate].
  injection H as <- <-. apply strip_prefix_length in E. lia.
Qed.

Lemma parse_literal_fuel name v0 s :
  JSON.parse_literal name v0 s <> JSON.Fail JSON.OutOfFuel.
Proof.
  unfold JSON.parse_literal. destruct (JSON.strip_prefix name s); discriminate.
Qed.

Lemma after_length c s r :
  JSON.after c s = Some r -> String.length s = S (String.length r).
Proof.
  destruct s as [| d s]; cbn; [discriminate |].
  destruct (d =? c)%char; [| discriminate]. now intros [= <-].
Qed.

Lemma parse_value_S n s :
  JSON.parse_value (S n) s
  = match JSON.skip_ws s with
    | EmptyString => JSON.Fail JSON.SyntaxError
    | String c r =>
        if (c =? "{")%char then
          match JSON.after "}" (JSON.skip_ws r) with
          | Some r' => JSON.Ok (JSON.Object [], r')
          | None => JSON.bind (JSON.parse_members n r)
                      (fun '(ms, rest) => JSON.Ok (JSON.Object ms, rest))
          end
        else if (c =? "[")%char then
          match JSON.after "]" (JSON.skip_ws r) with
          | Some r' => JSON.Ok (JSON.Array [], r')
          | None => JSON.bind (JSON.parse_elements n r)
                      (fun '(vs, rest) => JSON.Ok (JSON.Array vs, rest))
          end
        else if (c =? DQ)%char then
          JSON.bind (JSON.parse_chars r)
            (fun '(str, rest) => JSON.Ok (JSON.Str str, rest))
        else if (c =? "t")%char
        then JSON.parse_literal "true" (JSON.Bool true) (String c r)
        else if (c =? "f")%char
        then JSON.parse_literal "false" (JSON.Bool false) (String c r)
        else if (c =? "n")%char
        then JSON.parse_literal "null" JSON.Null (String c r)
        else JSON.bind (JSON.parse_number (String c r))
               (fun '(lit, rest) => JSON.Ok (JSON.Number lit, rest))
    end.
Proof. reflexivity. Qed.

Lemma parse_members_S n s :
  JSON.parse_members (S n) s
  = match JSON.skip_ws s with
    | String q r =>
        if (q =? DQ)%char then
          JSON.bind (JSON.parse_chars r) (fun '(k, r1) =>
            match JSON.skip_ws r1 with
            | String c r2 =>
                if (c =? ":")%char then
                  JSON.bind (JSON.parse_value n r2) (fun '(v, r3) =>
                    match JSON.skip_ws r3 with
                    | String d r4 =>
                        if (d =? ",")%char
                        then JSON.bind (JSON.parse_members n r4)
                               (fun '(ms, rest) => JSON.Ok ((k, v) :: ms, rest))
                        else if (d =? "}")%char then JSON.Ok ([(k, v)], r4)
                        else JSON.Fail JSON.SyntaxError
                    | EmptyString => JSON.Fail JSON.SyntaxError
                    end)
                else JSON.Fail JSON.SyntaxError
            | EmptyString => JSON.Fail JSON.SyntaxError
            end)
        else JSON.Fail JSON.SyntaxError
    | EmptyString => JSON.Fail JSON.SyntaxError
    end.
Proof. reflexivity. Qed.

(** The lengths of the texts at hand, as facts for [lia]. *)
Ltac lengths :=
  repeat match goal with
    | H : context [JSON.skip_ws ?x] |- _ =>
        lazymatch goal with
        | _ : (String.length (JSON.skip_ws x) <= String.length x)%nat |- _ => fail
        | _ => pose proof (skip_ws_length x)
        end
    end;
  repeat match goal with
    | E : JSON.skip_ws ?x = _, L : context [JSON.skip_ws ?x] |- _ =>
        progress (rewrite E in L)
    | E : JSON.parse_chars _ = JSON.Ok _ |- _ => apply parse_chars_lt in E
    | E : JSON.after _ _ = Some _ |- _ => apply after_length in E
    | E : JSON.parse_number _ = JSON.Ok _ |- _ => apply parse_number_shorter in E
    | E : JSON.parse_literal _ _ _ = JSON.Ok _ |- _ =>
        apply parse_literal_shorter in E; [| cbn; lia]
    end;
  cbn [String.length] in *.

(** Every reader consumes one character at least. *)
Lemma parse_shorter n :
  (forall s v r, JSON.parse_value n s = JSON.Ok (v, r) ->
                 (String.length r < String.length s)%nat)
  /\ (forall s vs r, JSON.parse_elements n s = JSON.Ok (vs, r) ->
                     (String.length r < String.length s)%nat)
  /\ (forall s ms r, JSON.parse_members n s = JSON.Ok (ms, r) ->
                     (String.length r < String.length s)%nat).
Proof.
  induction n as [| n (IHv & IHe & IHm)].
  - repeat split; intros; discriminate.
  - repeat split.
    + intros s v r H. rewrite parse_value_S in H.
      repeat (break H; try discriminate H);
        try (injection H as <- <-);
        repeat match goal with
          | E : JSON.parse_members n _ = JSON.Ok _ |- _ => apply IHm in E
          | E : JSON.parse_elements n _ = JSON.Ok _ |- _ => apply IHe in E
          end;
        lengths; lia.
    + intros s vs r H. rewrite parse_elements_S in H.
      repeat (break H; try discriminate H);
        try (injection H as <- <-);
        repeat match goal with
          | E : JSON.parse_value n _ = JSON.Ok _ |- _ => apply IHv in E
          | E : JSON.parse_elements n _ = JSON.Ok _ |- _ => apply IHe in E
          end;
        lengths; lia.
    + intros s ms r H. rewrite parse_members_S in H.
      repeat (break H; try discriminate H);
        try (injection H as <- <-);
        repeat match goal with
          | E : JSON.parse_value n _ = JSON.Ok _ |- _ => apply IHv in E
          | E : JSON.parse_members n _ = JSON.Ok _ |- _ => apply IHm in E
          end;
        lengths; lia.
Qed.

Ltac out_of_fuel IHv IHe IHm :=
  lazymatch goal with
  | E : JSON.parse_value _ ?x = JSON.Fail JSON.OutOfFuel |- _ =>
      apply (IHv x); [lia | exact E]
  | E : JSON.parse_elements _ ?x = JSON.Fail JSON.OutOfFuel |- _ =>
      apply (IHe x); [lia | exact E]
  | E : JSON.parse_members _ ?x = JSON.Fail JSON.OutOfFuel |- _ =>
      apply (IHm x); [lia | exact E]
  | E : JSON.parse_chars _ = JSON.Fail JSON.OutOfFuel |- _ =>
      exact (parse_chars_fuel _ E)
  | E : JSON.parse_number _ = JSON.Fail JSON.OutOfFuel |- _ =>
      exact (parse_number_fuel _ E)
  | E : JSON.parse_literal _ _ _ = JSON.Fail JSON.OutOfFuel |- _ =>
      exact (parse_literal_fuel _ _ _ E)
  end.

(** Twice the length of the text, and two more, is fuel enough. *)
Lemma parse_fuel n :
  (forall s, (2 * String.length s < n)%nat ->
             JSON.parse_value n s <> JSON.Fail JSON.OutOfFuel)
  /\ (forall s, (2 * String.length s + 1 < n)%nat ->
                JSON.parse_elements n s <> JSON.Fail JSON.OutOfFuel)
  /\ (forall s, (2 * String.length s + 1 < n)%nat ->
                JSON.parse_members n s <> JSON.Fail JSON.OutOfFuel).
Proof.
  induction n as [| n (IHv & IHe & IHm)]; [repeat split; intros; lia |].
  destruct (parse_shorter n) as (Sv & Se & Sm).
  repeat split; intros s Hn H.
  - rewrite parse_value_S in H.
    repeat (break H; try discriminate H); try (injection H as ->);
      lengths; out_of_fuel IHv IHe IHm.
  - rewrite parse_elements_S in H.
    repeat (break H; try discriminate H); try (injection H as ->);
      repeat match goal with
        | E : JSON.parse_value n _ = JSON.Ok _ |- _ => apply Sv in E
        end;
      lengths; out_of_fuel IHv IHe IHm.
  - rewrite parse_members_S in H.
    repeat (break H; try discriminate H); try (injection H as ->);
      repeat match goal with
        | E : JSON.parse_value n _ = JSON.Ok _ |- _ => apply Sv in E
        end;
      lengths; out_of_fuel IHv IHe IHm.
Qed.

(** [JSON.parse] returns a value, throws, or meets a code unit that the
    model does not hold: the bound on the recursion is never met. *)
Lemma parse_total text : JSON.parse text <> JSON.Fail JSON.OutOfFuel.
Proof.
  unfold JSON.parse. intros H.
  break_bind H.
  - destruct (JSON.skip_ws s); discriminate H.
  - injection H as ->.
    revert E. apply (proj1 (parse_fuel _)). lia.
Qed.

End Totality.

(** ** Runs of the component *)

Section Runs.

Implicit Types (w : App) (e : event) (es : list event) (t : timer).

Lemma setTasks_synced ts w : synced (setTasks ts w).
Proof. unfold synced, setTasks, saveTasks. cbn. apply lookup_insert_eq. Qed.

Lemma step_synced e w w' : step e w = Some w' -> synced w -> synced w'.
Proof.
  unfold synced.
  destruct e as [value | c | now | taskId | taskId | activeId [overId |] |];
    cbn [step]; intros H Hs.
  - now injection H as <-.
  - now injection H as <-.
  - destruct (JS.truthy_string (JS.trim (newTask w))); injection H as <-;
      [cbn; apply lookup_insert_eq | exact Hs].
  - injection H as <-. cbn. apply lookup_insert_eq.
  - injection H as <-. cbn. apply lookup_insert_eq.
  - destruct (negb (activeId =? overId)%string).
    + destruct (moveItem activeId overId (tasks w)); [| discriminate].
      injection H as <-. cbn. apply lookup_insert_eq.
    + now injection H as <-.
  - now injection H as <-.
  - destruct (timers w) as [| t rest]; injection H as <-;
      [exact Hs | cbn; apply lookup_insert_eq].
Qed.

Lemma run_synced es : forall w w',
  run es w = Some w' -> synced w -> synced w'.
Proof.
  induction es as [| e es IH]; intros w w' H Hs; cbn in H.
  - now injection H as <-.
  - destruct (step e w) as [w1 |] eqn:E; [| discriminate].
    apply (IH w1 w' H). exact (step_synced e w w1 E Hs).
Qed.

Lemma run_app es1 es2 w :
  run (es1 ++ es2) w
  = match run es1 w with
    | Some w' => run es2 w'
    | None => None
    end.
Proof.
  revert w. induction es1 as [| e es1 IH]; intros w; cbn; [reflexivity |].
  destruct (step e w); [apply IH | reflexivity].
Qed.

(** What the storage holds, once it is in step with the tasks. *)
Lemma synced_parse w :
  synced w ->
  exists saved,
    localStorage w !! "tasks" = Some saved
    /\ JSON.parse saved = JSON.Ok (tasks_value (persisted (tasks w))).
Proof.
  intros Hs. eexists. split; [exact Hs | apply parse_stringify_tasks].
Qed.

(** A timer stays in the queue, in its place, until the timers before it
    have run. *)
Lemma run_keeps_timer es : forall w w' pre t post,
  timers w = pre ++ t :: post ->
  timeouts es = List.length pre ->
  run es w = Some w' ->
  exists post', timers w' = t :: post'.
Proof.
  induction es as [| e es IH]; intros w w' pre t post Hq Hn H.
  - cbn in H. injection H as <-.
    destruct pre; [| discriminate Hn]. cbn in Hq. eauto.
  - cbn [run] in H. destruct (step e w) as [w1 |] eqn:E; [| discriminate].
    destruct e as [value | c | now | taskId | taskId | activeId [overId |] |];
      cbn [step] in E;
      try (unfold timeouts in Hn; cbn [List.filter is_timeout] in Hn;
           fold (timeouts es) in Hn).
    + injection E as <-. refine (IH _ w' pre t post _ Hn H); exact Hq.
    + injection E as <-. refine (IH _ w' pre t post _ Hn H); exact Hq.
    + destruct (JS.truthy_string (JS.trim (newTask w))); injection E as <-.
      * refine (IH _ w' pre t (post ++ [ClearIsNew (JS.toString now)]) _ Hn H).
        cbn. rewrite Hq, <- app_assoc. reflexivity.
      * refine (IH _ w' pre t post _ Hn H); exact Hq.
    + injection E as <-. refine (IH _ w' pre t post _ Hn H); exact Hq.
    + injection E as <-.
      refine (IH _ w' pre t (post ++ [RemoveTask taskId]) _ Hn H).
      cbn. rewrite Hq, <- app_assoc. reflexivity.
    + destruct (negb (activeId =? overId)%string).
      * destruct (moveItem activeId overId (tasks w)); [| discriminate].
        injection E as <-. refine (IH _ w' pre t post _ Hn H); exact Hq.
      * injection E as <-. refine (IH _ w' pre t post _ Hn H); exact Hq.
    + injection E as <-. refine (IH _ w' pre t post _ Hn H); exact Hq.
    + rewrite Hq in E. cbn [List.length] in Hn.
      destruct pre as [| p pre]; [discriminate Hn |].
      cbn in E. injection E as <-.
      refine (IH _ w' pre t post _ _ H); [reflexivity |].
      unfold timeouts in *. cbn in Hn. lia.
Qed.

End Runs.

(** ** Creations *)

Section Creations.

Implicit Types (tasks : list Task) (c : creation) (cs : list creation).

Lemma to_int_norm z : Z.to_int z = Decimal.norm (Z.to_int z).
Proof. rewrite <- DecimalZ.to_of, DecimalZ.of_to. reflexivity. Qed.

Lemma norm_not_nil d :
  Decimal.norm d <> Decimal.Pos Decimal.Nil
  /\ Decimal.norm d <> Decimal.Neg Decimal.Nil.
Proof.
  destruct d as [d | d]; cbn.
  - unfold Decimal.unorm. destruct (Decimal.nzhead d); split; discriminate.
  - destruct (Decimal.nzhead d); split; discriminate.
Qed.

(** Two time values with the same digits are the same. *)
Lemma toString_inj a b : JS.toString a = JS.toString b -> a = b.
Proof.
  unfold JS.toString. intros H. apply DecimalZ.to_int_inj.
  assert (R : forall z,
    NilZero.int_of_string (NilZero.string_of_int (Z.to_int z))
    = Some (Z.to_int z)).
  { intros z. destruct (norm_not_nil (Z.to_int z)) as [P N].
    rewrite <- to_int_norm in P, N. now apply NilZero.isi. }
  pose proof (R a) as Ra. rewrite H, R in Ra. congruence.
Qed.

Lemma addTask_not_blank now newTask selectedCategory tasks :
  JS.trim newTask <> EmptyString ->
  addTask now newTask selectedCategory tasks
  = tasks ++ [newTaskRecord now newTask selectedCategory].
Proof.
  intros H. unfold addTask, JS.truthy_string.
  now rewrite (proj2 (String.eqb_neq _ _) H).
Qed.

Lemma creates_snoc cs c tasks :
  creates (cs ++ [c]) tasks = create c (creates cs tasks).
Proof. unfold creates. now rewrite fold_left_app. Qed.

Lemma adds_snoc cs c : adds (cs ++ [c]) = adds cs ++ adds [c].
Proof. unfold adds. apply flat_map_app. Qed.

Lemma ids_create c tasks :
  ids (create c tasks) = ids tasks ++ map JS.toString (adds [c]).
Proof.
  destruct c as [now txt cat | taskId]; cbn [create adds flat_map].
  - unfold addTask, is_blank.
    destruct (JS.truthy_string (JS.trim txt)); cbn.
    + unfold ids. now rewrite map_app.
    + now rewrite app_nil_r.
  - cbn. now rewrite ids_clearIsNew, app_nil_r.
Qed.

Lemma completed_create c tasks :
  map completed (create c tasks)
  = map completed tasks ++ repeat false (List.length (adds [c])).
Proof.
  destruct c as [now txt cat | taskId]; cbn [create adds flat_map].
  - unfold addTask, is_blank.
    destruct (JS.truthy_string (JS.trim txt)); cbn.
    + now rewrite map_app.
    + now rewrite app_nil_r.
  - cbn. now rewrite completed_clearIsNew, app_nil_r.
Qed.

Lemma ids_creates cs tasks :
  ids (creates cs tasks) = ids tasks ++ map JS.toString (adds cs).
Proof.
  induction cs as [| c cs IH] using rev_ind.
  - cbn. now rewrite app_nil_r.
  - rewrite creates_snoc, ids_create, IH, adds_snoc, map_app, app_assoc.
    reflexivity.
Qed.

Lemma completed_creates cs tasks :
  map completed (creates cs tasks)
  = map completed tasks ++ repeat false (List.length (adds cs)).
Proof.
  induction cs as [| c cs IH] using rev_ind.
  - cbn. now rewrite app_nil_r.
  - rewrite creates_snoc, completed_create, IH, adds_snoc, length_app,
      repeat_app, app_assoc.
    reflexivity.
Qed.

End Creations.

(** * The claims *)

(** ** C1: the initializer *)

(** C1, counterexample. The stored value is the one character of an opening
    brace: it is there, it is not empty and [JSON.parse] rejects it. The
    initializer does not fall back to the default tasks: the [SyntaxError]
    leaves it. *)
Lemma initTasks_malformed_throws :
  (<["tasks" := "{"]> (∅ : gmap string string)) !! "tasks" = Some "{"
  /\ JSON.parse "{" = JSON.Fail JSON.SyntaxError
  /\ initTasks (<["tasks" := "{"]> ∅) = JSON.Fail JSON.SyntaxError.
Proof.
  split; [apply lookup_insert_eq |]. split; [reflexivity |].
  unfold initTasks. rewrite lookup_insert_eq. reflexivity.
Qed.

(** C1, as amended. On startup, when nothing is stored under the key
    (or the stored value is the empty string) the tasks are the default set:
    four tasks, one for each category. A stored value that is not empty is
    given to [JSON.parse], and when that fails the failure is the result of
    the initializer: there is no fallback for it. *)
Theorem initTasks_fallback (storage : gmap string string) :
  (storage !! "tasks" = None \/ storage !! "tasks" = Some EmptyString ->
     initTasks storage = JSON.Ok (tasks_value defaultTasks))
  /\ (forall savedTasks f,
        storage !! "tasks" = Some savedTasks -> savedTasks <> EmptyString ->
        JSON.parse savedTasks = JSON.Fail f ->
        initTasks storage = JSON.Fail f)
  /\ List.length defaultTasks = 4%nat
  /\ Permutation (map category defaultTasks) categories.
Proof.
  repeat split.
  - unfold initTasks. intros [-> | ->]; reflexivity.
  - intros savedTasks f Hs Hne Hf. unfold initTasks. rewrite Hs.
    unfold JS.truthy_string.
    rewrite (proj2 (String.eqb_neq savedTasks EmptyString) Hne). exact Hf.
  - cbn. apply perm_skip. apply perm_swap.
Qed.

Lemma initTasks_fallback_witness :
  initTasks (∅ : gmap string string) = JSON.Ok (tasks_value defaultTasks)
  /\ initTasks (<["tasks" := "not json"]> ∅) = JSON.Fail JSON.SyntaxError.
Proof.
  split.
  - apply (proj1 (initTasks_fallback ∅)). left. apply lookup_empty.
  - apply (proj1 (proj2 (initTasks_fallback (<["tasks" := "not json"]> ∅)))
             "not json" JSON.SyntaxError).
    + apply lookup_insert_eq.
    + discriminate.
    + reflexivity.
Defined.

(** ** C6: toggling twice *)

(** C6. [toggleTask] applied twice with the same id gives the tasks back:
    every [completed] has its first value, and nothing else has changed. *)
Theorem toggleTask_involutive (taskId : string) (tasks : list Task) :
  toggleTask taskId (toggleTask taskId tasks) = tasks.
Proof.
  unfold toggleTask. rewrite map_map. apply map_fixes.
  intros t _. apply (toggle_entry_twice taskId t).
Qed.

(** ** C8 and C10: [addTask] *)

(** C8. With a text that is empty once trimmed, [addTask] leaves the tasks
    as they are. With any other text it puts one task at the end: its id is
    made from the clock at that moment, it is not completed, it has the
    selected category and [isNew] set; the tasks before it are the ones that
    were there. *)
Theorem addTask_appends (now : Z) (newTask : string) (selectedCategory : Category)
    (tasks : list Task) :
  (JS.trim newTask = EmptyString ->
     addTask now newTask selectedCategory tasks = tasks)
  /\ (JS.trim newTask <> EmptyString ->
        addTask now newTask selectedCategory tasks
        = tasks ++ [ {| id := JS.toString now;
                        text := newTask;
                        completed := false;
                        category := selectedCategory;
                        isNew := Some true;
                        isDeleting := None |} ]).
Proof.
  split; [| apply addTask_not_blank].
  unfold addTask, JS.truthy_string. intros H. now rewrite H.
Qed.

Lemma addTask_appends_witness :
  addTask 1700000000000 "   " mental defaultTasks = defaultTasks
  /\ addTask 1700000000000 "Stretch" physical defaultTasks
     = defaultTasks
       ++ [mkTask "1700000000000" "Stretch" false physical (Some true) None].
Proof.
  split.
  - apply (proj1 (addTask_appends 1700000000000 "   " mental defaultTasks)).
    reflexivity.
  - apply (proj2 (addTask_appends 1700000000000 "Stretch" physical defaultTasks)).
    discriminate.
Defined.

(** C10. The text of the new task is the input as it was typed: trimming
    decides whether a task is made, and is not applied to what is kept. *)
Theorem addTask_keeps_raw_text (now : Z) (newTask : string)
    (selectedCategory : Category) (tasks : list Task) :
  JS.trim newTask <> EmptyString ->
  exists task,
    addTask now newTask selectedCategory tasks = tasks ++ [task]
    /\ text task = newTask.
Proof.
  intros H. eexists. split.
  - apply (addTask_not_blank now newTask selectedCategory tasks H).
  - reflexivity.
Qed.

Lemma addTask_keeps_raw_text_witness :
  JS.trim "  Stretch  " = "Stretch"
  /\ exists task,
       addTask 1700000000000 "  Stretch  " physical defaultTasks
       = defaultTasks ++ [task]
       /\ text task = "  Stretch  ".
Proof.
  split; [reflexivity |].
  apply (addTask_keeps_raw_text 1700000000000 "  Stretch  " physical defaultTasks).
  discriminate.
Defined.

(** ** C9: an id that no task has *)

(** C9. With an id that no task has, [toggleTask] and both updates of
    [deleteTask] (the flag set at once, the removal made by the timer) give
    the tasks back. *)
Theorem absent_id_no_op (taskId : string) (tasks : list Task) :
  ~ In taskId (ids tasks) ->
  toggleTask taskId tasks = tasks
  /\ markDeleting taskId tasks = tasks
  /\ removeTask taskId tasks = tasks.
Proof.
  intros Hno. repeat split.
  - apply map_fixes. intros t Ht. now rewrite (absent_eqb tasks taskId t Hno Ht).
  - apply map_fixes. intros t Ht. now rewrite (absent_eqb tasks taskId t Hno Ht).
  - unfold removeTask. apply forallb_filter_id. apply forallb_forall.
    intros t Ht. now rewrite (absent_eqb tasks taskId t Hno Ht).
Qed.

Lemma absent_id_no_op_witness :
  toggleTask "9" defaultTasks = defaultTasks
  /\ markDeleting "9" defaultTasks = defaultTasks
  /\ removeTask "9" defaultTasks = defaultTasks.
Proof.
  apply (absent_id_no_op "9" defaultTasks).
  cbn. intros [H | [H | [H | [H | []]]]]; discriminate H.
Defined.

(** ** C2 and C5: reordering *)

(** C2, counterexample. No default task has the id 9. Dragging an item
    with that id onto the first task is not a no-op: [findIndex] answers
    -1, [splice(-1, 1)] takes the last task out, and it is put first. With
    that id as the target, the first task is put before the last one. *)
Lemma handleDragEnd_missing_id_moves :
  JS.findIndex (has_id "9") defaultTasks = -1
  /\ handleDragEnd "9" (Some "1") defaultTasks
     = Some [ mkTask "4" "Make the bed" false chores None None;
              mkTask "1" "Morning workout" false physical None None;
              mkTask "2" "Meditation" false spiritual None None;
              mkTask "3" "Read for 30 minutes" false mental None None ]
  /\ option_map ids (handleDragEnd "1" (Some "9") defaultTasks)
     = Some ["2"; "3"; "1"; "4"].
Proof. repeat split; reflexivity. Qed.

(** C2, as amended. When no target is given, or the target has the id of
    the dragged item, the tasks stay as they are. When both ids are ids of
    tasks and differ, the first task with the dragged id leaves its place
    and stands at the place the target had; the other tasks keep their
    order. *)
Theorem handleDragEnd_reorders (activeId : string) (over : option string)
    (items : list Task) :
  (over = None \/ over = Some activeId ->
     handleDragEnd activeId over items = Some items)
  /\ (forall overId,
        over = Some overId -> activeId <> overId ->
        In activeId (ids items) -> In overId (ids items) ->
        exists (oldIndex newIndex : nat) (movedItem : Task) (newItems : list Task),
          JS.findIndex (has_id activeId) items = Z.of_nat oldIndex
          /\ JS.findIndex (has_id overId) items = Z.of_nat newIndex
          /\ nth_error items oldIndex = Some movedItem
          /\ handleDragEnd activeId over items = Some newItems
          /\ nth_error newItems newIndex = Some movedItem
          /\ remove_at newIndex newItems = remove_at oldIndex items).
Proof.
  split.
  - intros [-> | ->]; cbn; [reflexivity |]. now rewrite String.eqb_refl.
  - intros overId -> Hne Ha Hb.
    destruct (findIndex_In activeId items Ha) as (i & Hi).
    destruct (findIndex_In overId items Hb) as (j & Hj).
    destruct (findIndex_found _ _ _ Hi) as (x & Hx & _).
    destruct (findIndex_found _ _ _ Hj) as (y & Hy & _).
    assert (Hlen : (j <= List.length (remove_at i items))%nat).
    { assert ((j < List.length items)%nat) by (apply nth_error_Some; congruence).
      assert ((i < List.length items)%nat) by (apply nth_error_Some; congruence).
      rewrite length_remove_at; lia. }
    exists i, j, x, (insert_at j x (remove_at i items)).
    repeat split; trivial.
    + cbn. rewrite (proj2 (String.eqb_neq _ _) Hne). cbn.
      exact (moveItem_found activeId overId items i j x Hi Hj Hx).
    + now apply nth_error_insert_at.
    + now apply remove_insert_at.
Qed.

Lemma handleDragEnd_reorders_witness :
  handleDragEnd "1" None defaultTasks = Some defaultTasks
  /\ exists (oldIndex newIndex : nat) (movedItem : Task) (newItems : list Task),
       JS.findIndex (has_id "1") defaultTasks = Z.of_nat oldIndex
       /\ JS.findIndex (has_id "3") defaultTasks = Z.of_nat newIndex
       /\ nth_error defaultTasks oldIndex = Some movedItem
       /\ handleDragEnd "1" (Some "3") defaultTasks = Some newItems
       /\ nth_error newItems newIndex = Some movedItem
       /\ remove_at newIndex newItems = remove_at oldIndex defaultTasks.
Proof.
  split.
  - apply (proj1 (handleDragEnd_reorders "1" None defaultTasks)). now left.
  - apply (proj2 (handleDragEnd_reorders "1" (Some "3") defaultTasks) "3").
    + reflexivity.
    + discriminate.
    + cbn. tauto.
    + cbn. tauto.
Defined.

(** C5, counterexample. Two tasks made at the same clock value have the
    same id. With a third one made after them, the tasks have the ids
    1, 2, 3, 4, T, T, T+1. The last task is dragged onto the first; the
    place it had then holds the second task with the id T. Dragging it
    back onto that id finds the first task with the id T, and the order at
    the end is 1, 2, 3, 4, T, T+1, T. *)
Lemma reorder_back_duplicate_ids :
  let items :=
    creates [ Added 1700000000000 "a" physical;
              Added 1700000000000 "b" physical;
              Added 1700000000001 "c" physical ] defaultTasks in
  ids items
  = ["1"; "2"; "3"; "4"; "1700000000000"; "1700000000000"; "1700000000001"]
  /\ match handleDragEnd "1700000000001" (Some "1") items with
     | Some moved =>
         match nth_error moved 6 with
         | Some occupant =>
             (id occupant,
              option_map ids (handleDragEnd "1700000000001" (Some (id occupant)) moved))
         | None => (EmptyString, None)
         end
     | None => (EmptyString, None)
     end
     = ("1700000000000",
        Some ["1"; "2"; "3"; "4"; "1700000000000"; "1700000000001"; "1700000000000"]).
Proof. split; vm_compute; reflexivity. Qed.

(** C5, as amended. For tasks whose ids are pairwise distinct and two
    different ids [a] and [b] among them: after [a] is dragged onto [b], a
    task stands at the place that [a] had, and dragging [a] onto the id of
    that task gives the first order back. *)
Theorem reorder_back (items : list Task) (a b : string) :
  List.NoDup (ids items) ->
  In a (ids items) -> In b (ids items) -> a <> b ->
  exists (place : nat) (moved : list Task) (occupant : Task),
    JS.findIndex (has_id a) items = Z.of_nat place
    /\ handleDragEnd a (Some b) items = Some moved
    /\ nth_error moved place = Some occupant
    /\ handleDragEnd a (Some (id occupant)) moved = Some items.
Proof.
  intros Hnd Ha Hb Hne.
  destruct (findIndex_In a items Ha) as (i & Hi).
  destruct (findIndex_In b items Hb) as (j & Hj).
  destruct (findIndex_found _ _ _ Hi) as (x & Hx & Px & _).
  destruct (findIndex_found _ _ _ Hj) as (y & Hy & Py & _).
  apply String.eqb_eq in Px, Py.
  assert (Hij : i <> j) by (intros ->; congruence).
  assert (Li : (i < List.length items)%nat) by (apply nth_error_Some; congruence).
  assert (Lj : (j < List.length items)%nat) by (apply nth_error_Some; congruence).
  set (moved := insert_at j x (remove_at i items)).
  assert (Hlen : (j <= List.length (remove_at i items))%nat)
    by (rewrite length_remove_at; lia).
  assert (Hmoved : List.length moved = List.length items)
    by (apply moved_length; exact Hx).
  assert (Hxj : nth_error moved j = Some x) by now apply nth_error_insert_at.
  assert (Hnd' : List.NoDup (ids moved)).
  { apply (Permutation_NoDup (l := ids items)); [| exact Hnd].
    unfold ids. apply Permutation_map. symmetry.
    now apply moved_Permutation. }
  destruct (nth_error moved i) as [c |] eqn:Hc;
    [| apply nth_error_None in Hc; lia].
  assert (Hac : a <> id c).
  { intros E. apply Hij.
    apply (proj1 (NoDup_nth_error (ids moved)) Hnd').
    - unfold ids. rewrite length_map. lia.
    - unfold ids. rewrite !nth_error_map, Hc, Hxj. cbn. congruence. }
  exists i, moved, c. repeat split; trivial.
  - cbn. rewrite (proj2 (String.eqb_neq _ _) Hne). cbn.
    exact (moveItem_found a b items i j x Hi Hj Hx).
  - unfold handleDragEnd. rewrite (proj2 (String.eqb_neq _ _) Hac). cbn [negb].
    rewrite (moveItem_found a (id c) moved j i x).
    + unfold moved. rewrite remove_insert_at by exact Hlen.
      now rewrite insert_remove_at.
    + rewrite <- Px. now apply findIndex_NoDup.
    + now apply findIndex_NoDup.
    + exact Hxj.
Qed.

Lemma reorder_back_witness :
  exists (place : nat) (moved : list Task) (occupant : Task),
    JS.findIndex (has_id "1") defaultTasks = Z.of_nat place
    /\ handleDragEnd "1" (Some "3") defaultTasks = Some moved
    /\ nth_error moved place = Some occupant
    /\ handleDragEnd "1" (Some (id occupant)) moved = Some defaultTasks.
Proof.
  apply (reorder_back defaultTasks "1" "3").
  - repeat constructor; cbn; intuition discriminate.
  - cbn. tauto.
  - cbn. tauto.
  - discriminate.
Defined.

(** ** C3: what is stored, read back *)

(** C3, counterexample. One task as [addTask] makes it. What is read back
    after the effect has stored it is one record with five members: the
    fifth is [isNew]. It is not the record of four fields. *)
Lemma stored_record_has_isNew :
  let tasks := addTask 1700000000000 "Stretch" physical [] in
  initTasks (saveTasks tasks ∅)
  = JSON.Ok (JSON.Array
      [ JSON.Object
          [ ("id", JSON.Str "1700000000000");
            ("text", JSON.Str "Stretch");
            ("completed", JSON.Bool false);
            ("category", JSON.Str "physical");
            ("isNew", JSON.Bool true) ] ])
  /\ spec_tasks_value (persisted tasks)
     = JSON.Array
         [ JSON.Object
             [ ("id", JSON.Str "1700000000000");
               ("text", JSON.Str "Stretch");
               ("completed", JSON.Bool false);
               ("category", JSON.Str "physical") ] ].
Proof.
  split; [| reflexivity].
  cbv zeta. rewrite initTasks_saveTasks. reflexivity.
Qed.

(** C3, as amended. What the initializer reads after the effect has stored
    the tasks is the tasks without those whose [isDeleting] is set, in
    their order, each with its [id], [text], [completed] and [category],
    and with [isNew] and [isDeleting] when the task has them: the flagged
    tasks are left out, the flags of the others are stored. *)
Theorem stored_tasks_read_back (tasks : list Task) (storage : gmap string string) :
  initTasks (saveTasks tasks storage)
  = JSON.Ok (tasks_value
               (List.filter (fun task => negb (JS.truthy (isDeleting task))) tasks)).
Proof.
  unfold initTasks, saveTasks. fold (persisted tasks).
  rewrite lookup_insert_eq, stringify_tasks_truthy.
  apply parse_stringify_tasks.
Qed.

(** ** C4: runs of creations *)

(** C4, counterexample. Two tasks made at the same clock value: the ids of
    the tasks are not distinct. *)
Lemma creates_same_clock_same_id :
  ids (creates [ Added 1700000000000 "a" physical;
                 Added 1700000000000 "b" mental ] defaultTasks)
  = ["1"; "2"; "3"; "4"; "1700000000000"; "1700000000000"].
Proof. vm_compute. reflexivity. Qed.

(** C4, as amended. A run of creations puts one task at the end for each
    text that is not blank: its id is the clock value of its creation in
    digits and it is not completed. The ids of all tasks are distinct
    when those at the start are, the clock values are distinct, and none of
    them, in digits, is an id at the start. *)
Theorem creates_new_entries (cs : list creation) (tasks : list Task) :
  ids (creates cs tasks) = ids tasks ++ map JS.toString (adds cs)
  /\ map completed (creates cs tasks)
     = map completed tasks ++ repeat false (List.length (adds cs))
  /\ List.length (creates cs tasks)
     = (List.length tasks + List.length (adds cs))%nat
  /\ (List.NoDup (ids tasks) -> List.NoDup (adds cs) ->
      (forall now, In now (adds cs) -> ~ In (JS.toString now) (ids tasks)) ->
      List.NoDup (ids (creates cs tasks))).
Proof.
  repeat split.
  - apply ids_creates.
  - apply completed_creates.
  - rewrite <- (length_map id (creates cs tasks)).
    fold (ids (creates cs tasks)).
    rewrite ids_creates, length_app. unfold ids. now rewrite !length_map.
  - intros Hstart Hclock Hfresh. rewrite ids_creates.
    apply List.NoDup_app.
    + exact Hstart.
    + apply List.NoDup_map_NoDup_ForallPairs; [| exact Hclock].
      intros x y _ _. apply toString_inj.
    + intros a Ha Hin. apply in_map_iff in Hin as (now & <- & Hnow).
      exact (Hfresh now Hnow Ha).
Qed.

Lemma creates_new_entries_witness :
  List.NoDup
    (ids (creates [ Added 1700000000000 "a" physical;
                    IsNewCleared "1700000000000";
                    Added 1700000000001 "b" mental ] defaultTasks)).
Proof.
  apply (proj2 (proj2 (proj2
    (creates_new_entries [ Added 1700000000000 "a" physical;
                           IsNewCleared "1700000000000";
                           Added 1700000000001 "b" mental ] defaultTasks)))).
  - repeat constructor; cbn; intuition discriminate.
  - vm_compute. repeat constructor; cbn; intuition discriminate.
  - intros now [<- | [<- | []]]; vm_compute; intuition discriminate.
Defined.

(** ** C7: a deleted task, in the storage and in memory *)

(** C7. From any state of the component, after [deleteTask] has been called
    with an id: at every later point the stored text reads back as the
    tasks without the flagged ones, so no stored task is flagged; right
    after the call no stored task has the id; and when the timer of the
    call runs (after the timers that were waiting before it, whatever else
    happens in between) no task in memory has the id. *)
Theorem deleteTask_persisted_and_removed (w : App) (taskId : string) :
  (forall es w',
     run (Delete taskId :: es) w = Some w' ->
     exists saved,
       localStorage w' !! "tasks" = Some saved
       /\ JSON.parse saved = JSON.Ok (tasks_value (persisted (tasks w')))
       /\ Forall (fun t => isDeleting t <> Some true) (persisted (tasks w')))
  /\ (exists w1 saved,
        step (Delete taskId) w = Some w1
        /\ localStorage w1 !! "tasks" = Some saved
        /\ JSON.parse saved = JSON.Ok (tasks_value (persisted (tasks w1)))
        /\ ~ In taskId (ids (persisted (tasks w1))))
  /\ (forall es w',
        timeouts es = List.length (timers w) ->
        run (Delete taskId :: es ++ [Timeout]) w = Some w' ->
        ~ In taskId (ids (tasks w'))).
Proof.
  set (w1 := setTimeout (RemoveTask taskId)
               (setTasks (markDeleting taskId (tasks w)) w)).
  assert (Hs1 : synced w1) by apply (setTasks_synced _ w).
  repeat split.
  - intros es w' H. cbn [run step] in H. fold w1 in H.
    destruct (synced_parse w' (run_synced es w1 w' H Hs1)) as (saved & Hl & Hp).
    exists saved. repeat split; trivial. apply persisted_not_deleting.
  - destruct (synced_parse w1 Hs1) as (saved & Hl & Hp).
    exists w1, saved. repeat split; trivial.
    apply (persisted_markDeleting taskId (tasks w)).
  - intros es w' Hn H. cbn [run step] in H. fold w1 in H.
    rewrite run_app in H.
    destruct (run es w1) as [w2 |] eqn:E; [| discriminate].
    destruct (run_keeps_timer es w1 w2 (timers w) (RemoveTask taskId) []
                eq_refl Hn E) as (post & Hq).
    cbn [run step] in H. rewrite Hq in H. injection H as <-.
    cbn [tasks setTasks runTimer]. apply removeTask_absent.
Qed.

Lemma deleteTask_persisted_and_removed_witness :
  let w := mount defaultTasks ∅ in
  (exists w' saved,
     run [Delete "4"; Toggle "1"] w = Some w'
     /\ localStorage w' !! "tasks" = Some saved
     /\ JSON.parse saved = JSON.Ok (tasks_value (persisted (tasks w')))
     /\ Forall (fun t => isDeleting t <> Some true) (persisted (tasks w')))
  /\ (exists w', run ([Delete "4"; Toggle "1"] ++ [Timeout]) w = Some w'
                 /\ ~ In "4" (ids (tasks w'))).
Proof.
  cbv zeta. split.
  - eexists.
    destruct (proj1 (deleteTask_persisted_and_removed (mount defaultTasks ∅) "4")
                [Toggle "1"] _ eq_refl) as (saved & H).
    exists saved. split; [reflexivity | exact H].
  - eexists. split; [reflexivity |].
    apply (proj2 (proj2 (deleteTask_persisted_and_removed (mount defaultTasks ∅) "4"))
             [Toggle "1"]); reflexivity.
Defined.

(** * The scenarios of section 8, run on the model *)

(** From the default tasks, a task is created with the text Stretch. *)
Example scenario_create :
  let after := addTask 1700000000000 "Stretch" physical defaultTasks in
  List.length after = 5%nat
  /\ option_map (fun t => (text t, category t, completed t)) (nth_error after 4)
     = Some ("Stretch", physical, false).
Proof. split; reflexivity. Qed.

(** Meditation is toggled, and toggled again. *)
Example scenario_toggle :
  option_map completed (nth_error (toggleTask "2" defaultTasks) 1) = Some true
  /\ toggleTask "2" (toggleTask "2" defaultTasks) = defaultTasks.
Proof. split; reflexivity. Qed.

(** The deletion of Make the bed is confirmed: what is stored has three
    records at once, and the tasks in memory are three once the timer has
    run. *)
Example scenario_delete :
  match run [Delete "4"] (mount defaultTasks ∅) with
  | Some w =>
      (option_map JSON.parse (localStorage w !! "tasks"),
       List.length (tasks w))
  | None => (None, 0%nat)
  end
  = (Some (JSON.Ok (tasks_value (firstn 3 defaultTasks))), 4%nat)
  /\ option_map (fun w => ids (tasks w))
       (run [Delete "4"; Timeout] (mount defaultTasks ∅))
     = Some ["1"; "2"; "3"].
Proof.
  split; vm_compute; reflexivity.
Qed.

(** Morning workout is dragged onto Read for 30 minutes. *)
Example scenario_reorder :
  option_map ids (handleDragEnd "1" (Some "3") defaultTasks)
  = Some ["2"; "3"; "1"; "4"].
Proof. reflexivity. Qed.

(** * More of the component *)

(** ** Every drag end *)

Section Drags.

Implicit Types (items r : list Task) (a b : string) (x : Task).

Lemma actualStart_range start len :
  0 <= len -> 0 <= JS.actualStart start len <= len.
Proof. unfold JS.actualStart. destruct (start <? 0) eqn:E; lia. Qed.

Lemma actualStart_clamped start len :
  0 <= len -> JS.actualStart (JS.actualStart start len) len = JS.actualStart start len.
Proof.
  intros Hlen. pose proof (actualStart_range start len Hlen) as R.
  unfold JS.actualStart at 1.
  destruct (JS.actualStart start len <? 0) eqn:E; lia.
Qed.

(** [splice] reads its start index through [actualStart] only. *)
Lemma splice_clamped {A} start d (new l : list A) :
  JS.splice start d new l
  = JS.splice (JS.actualStart start (Z.of_nat (List.length l))) d new l.
Proof.
  unfold JS.splice. rewrite actualStart_clamped by lia. reflexivity.
Qed.

(** What [handleDragEnd] gives to [setTasks], whatever the two ids are:
    one task is taken out of the tasks and put back at an index. *)
Lemma moveItem_takes_one a b items :
  items <> [] ->
  exists (i j : nat) x,
    nth_error items i = Some x
    /\ (j < List.length items)%nat
    /\ (In a (ids items) -> id x = a)
    /\ moveItem a b items = Some (insert_at j x (remove_at i items)).
Proof.
  intros Hne.
  assert (Hlen : (0 < List.length items)%nat)
    by (destruct items; [contradiction | cbn; lia]).
  set (len := Z.of_nat (List.length items)).
  set (oi := JS.findIndex (has_id a) items).
  set (ni := JS.findIndex (has_id b) items).
  pose proof (findIndex_range (has_id a) items) as Ra. fold oi len in Ra.
  pose proof (findIndex_range (has_id b) items) as Rb. fold ni len in Rb.
  set (i := Z.to_nat (JS.actualStart oi len)).
  assert (Hi : (i < List.length items)%nat).
  { subst i. unfold JS.actualStart. destruct (oi <? 0) eqn:E; lia. }
  destruct (nth_error items i) as [x |] eqn:Hx;
    [| apply nth_error_None in Hx; lia].
  set (j := Z.to_nat (JS.actualStart ni (len - 1))).
  assert (Hj : (j < List.length items)%nat).
  { subst j. unfold JS.actualStart. destruct (ni <? 0) eqn:E; lia. }
  exists i, j, x. repeat split; trivial.
  - intros Ha. destruct (findIndex_In a items Ha) as (k & Hk).
    destruct (findIndex_found _ _ _ Hk) as (y & Hy & Py & _).
    assert (i = k).
    { subst i. fold oi in Hk. rewrite Hk. unfold JS.actualStart.
      destruct (Z.of_nat k <? 0) eqn:E; lia. }
    subst k. rewrite Hx in Hy. injection Hy as <-.
    now apply String.eqb_eq in Py.
  - unfold moveItem. fold (has_id a) (has_id b). fold oi ni.
    rewrite (splice_clamped oi). fold len.
    replace (JS.actualStart oi len) with (Z.of_nat i)
      by (subst i; pose proof (actualStart_range oi len); lia).
    rewrite (splice_remove i items x Hx).
    rewrite (splice_clamped ni).
    rewrite length_remove_at by exact Hi.
    replace (Z.of_nat (List.length items - 1)) with (len - 1) by lia.
    replace (JS.actualStart ni (len - 1)) with (Z.of_nat j)
      by (subst j; pose proof (actualStart_range ni (len - 1)); lia).
    rewrite splice_insert; [reflexivity |].
    rewrite length_remove_at by exact Hi. lia.
Qed.



End Drags.

(** X1. A drag end never loses a task and never makes a second copy of
    one: whatever the two ids are, found or not, the tasks that
    [handleDragEnd] sets are the tasks it had, in some order. *)
Theorem handleDragEnd_Permutation (activeId : string) (over : option string)
    (items newItems : list Task) :
  handleDragEnd activeId over items = Some newItems ->
  Permutation newItems items.
Proof.
  unfold handleDragEnd. intros H.
  destruct over as [overId |]; [| now injection H as <-].
  destruct (negb (activeId =? overId)%string); [| now injection H as <-].
  destruct items as [| x0 rest] eqn:E; [discriminate H |].
  rewrite <- E in *.
  destruct (moveItem_takes_one activeId overId items) as (i & j & x & Hx & _ & _ & Hm);
    [rewrite E; discriminate |].
  rewrite Hm in H. injection H as <-. now apply moved_Permutation.
Qed.

Lemma handleDragEnd_Permutation_witness :
  exists newItems,
    handleDragEnd "9" (Some "7") defaultTasks = Some newItems
    /\ Permutation newItems defaultTasks.
Proof.
  eexists. split; [reflexivity |].
  apply (handleDragEnd_Permutation "9" (Some "7") defaultTasks). reflexivity.
Defined.

(** X2. [handleDragEnd] leaves an [undefined] slot in the array in one case
    only: there is a target, its id is not the active one, and there is no
    task at all. In every other case it sets an array of tasks. *)
Theorem handleDragEnd_fails_iff (activeId : string) (over : option string)
    (items : list Task) :
  handleDragEnd activeId over items = None
  <-> items = [] /\ exists overId, over = Some overId /\ activeId <> overId.
Proof.
  unfold handleDragEnd. split.
  - intros H. destruct over as [overId |]; [| discriminate H].
    destruct (String.eqb_spec activeId overId) as [E | E]; cbn [negb] in H;
      [discriminate H |].
    destruct items as [| x0 rest] eqn:Ei; [eauto |].
    destruct (moveItem_takes_one activeId overId (x0 :: rest))
      as (i & j & x & _ & _ & _ & Hm); [discriminate |].
    rewrite Hm in H. discriminate H.
  - intros (-> & overId & -> & Hne).
    rewrite (proj2 (String.eqb_neq _ _) Hne). reflexivity.
Qed.



(** ** The category view *)

Section View.

Implicit Types (tasks shown : list Task) (c : Category) (t : Task).

Lemma Category_eqb_eq a b : Category_eqb a b = true <-> a = b.
Proof. destruct a, b; cbn; split; intros H; try reflexivity; discriminate H. Qed.

Lemma all_categories c : In c categories.
Proof. destruct c; cbn; tauto. Qed.

Lemma rows_by_category tasks :
  rows tasks = flat_map (fun c => categoryTasks c tasks) categories.
Proof.
  unfold rows, renderSections. rewrite flat_map_concat_map, map_map.
  rewrite flat_map_concat_map. f_equal. apply map_ext. intros c.
  now destruct (categoryTasks c tasks).
Qed.

Lemma categoryTasks_cons c t tasks :
  categoryTasks c (t :: tasks)
  = if Category_eqb (category t) c
    then t :: categoryTasks c tasks else categoryTasks c tasks.
Proof. reflexivity. Qed.

Lemma categoryTasks_twice c c' tasks :
  categoryTasks c (categoryTasks c' tasks)
  = if Category_eqb c' c then categoryTasks c tasks else [].
Proof.
  induction tasks as [| t tasks IH].
  - now destruct (Category_eqb c' c).
  - rewrite (categoryTasks_cons c' t tasks), (categoryTasks_cons c t tasks).
    destruct (Category_eqb (category t) c') eqn:E1;
      [rewrite (categoryTasks_cons c t (categoryTasks c' tasks)) |];
      rewrite IH;
      destruct (category t), c, c'; cbn in *; try discriminate; reflexivity.
Qed.

Lemma rows_Permutation tasks : Permutation (rows tasks) tasks.
Proof.
  rewrite rows_by_category. unfold categories. cbn [flat_map].
  rewrite app_nil_r.
  induction tasks as [| t tasks IH]; [reflexivity |].
  rewrite !categoryTasks_cons. symmetry.
  destruct (category t); cbn [Category_eqb].
  - cbn. apply perm_skip. now symmetry.
  - apply Permutation_cons_app. now symmetry.
  - rewrite app_assoc. apply Permutation_cons_app.
    rewrite <- app_assoc. now symmetry.
  - rewrite 2!app_assoc. apply Permutation_cons_app.
    rewrite <- 2!app_assoc. now symmetry.
Qed.

Lemma categoryTasks_nonempty c tasks :
  categoryTasks c tasks <> [] <-> exists t, In t tasks /\ category t = c.
Proof.
  unfold categoryTasks. split.
  - destruct (List.filter _ tasks) as [| t l] eqn:E; [contradiction |].
    intros _. exists t.
    assert (Hin : In t (List.filter (fun task => Category_eqb (category task) c) tasks))
      by (rewrite E; now left).
    apply filter_In in Hin as [Hin Hc]. split; [exact Hin |].
    now apply Category_eqb_eq.
  - intros (t & Hin & Hc) E.
    assert (Hf : In t (List.filter (fun task => Category_eqb (category task) c) tasks)).
    { apply filter_In. split; [exact Hin |]. now apply Category_eqb_eq. }
    rewrite E in Hf. contradiction.
Qed.

End View.

(** X4. The view shows every task once: the rows of all sections, read
    from the first section to the last, are the tasks in another order.
    They are grouped by category in the order physical, mental, spiritual,
    chores, and the tasks of one category stand in the order that they have
    in the flat list. *)
Theorem rows_partition (tasks : list Task) :
  Permutation (rows tasks) tasks
  /\ rows tasks
     = categoryTasks physical tasks ++ categoryTasks mental tasks
       ++ categoryTasks spiritual tasks ++ categoryTasks chores tasks
  /\ forall c, categoryTasks c (rows tasks) = categoryTasks c tasks.
Proof.
  split; [apply rows_Permutation |].
  assert (E : rows tasks
              = categoryTasks physical tasks ++ categoryTasks mental tasks
                ++ categoryTasks spiritual tasks ++ categoryTasks chores tasks).
  { rewrite rows_by_category. cbn. now rewrite app_nil_r. }
  split; [exact E |].
  intros c. rewrite E. unfold categoryTasks at 1.
  rewrite !List.filter_app.
  fold (categoryTasks c (categoryTasks physical tasks)).
  fold (categoryTasks c (categoryTasks mental tasks)).
  fold (categoryTasks c (categoryTasks spiritual tasks)).
  fold (categoryTasks c (categoryTasks chores tasks)).
  rewrite !categoryTasks_twice.
  destruct c; cbn; rewrite ?app_nil_r; reflexivity.
Qed.

(** X5. A section is on the screen for a category if and only if some task
    has that category; its rows are then the tasks of the category. A
    category with no task has no section. *)
Theorem section_rendered_iff (tasks : list Task) (c : Category) (shown : list Task) :
  In (Some (c, shown)) (renderSections tasks)
  <-> shown = categoryTasks c tasks
      /\ exists t, In t tasks /\ category t = c.
Proof.
  unfold renderSections. rewrite in_map_iff. split.
  - intros (c' & E & _).
    destruct (categoryTasks c' tasks) as [| t l] eqn:Ec; cbn in E; [discriminate |].
    injection E as -> <-. split; [now rewrite Ec |].
    apply categoryTasks_nonempty. rewrite Ec. discriminate.
  - intros (-> & Ht). apply categoryTasks_nonempty in Ht.
    exists c. split; [| apply all_categories].
    destruct (categoryTasks c tasks); [contradiction | reflexivity].
Qed.

(** ** How the handlers compose *)

Section Compose.

Implicit Types (tasks : list Task) (i j : string).

Ltac entrywise :=
  rewrite ?map_map; apply map_ext; intros [i0 x0 c0 g0 n0 d0]; cbn;
  repeat match goal with
    | |- context [(i0 =? ?a)%string] => destruct (i0 =? a)%string eqn:?; cbn
    end;
  first [reflexivity | congruence].

Lemma markDeleting_twice i tasks :
  markDeleting i (markDeleting i tasks) = markDeleting i tasks.
Proof. unfold markDeleting. entrywise. Qed.

Lemma removeTask_twice i tasks :
  removeTask i (removeTask i tasks) = removeTask i tasks.
Proof.
  unfold removeTask. induction tasks as [| t tasks IH]; [reflexivity |].
  cbn. destruct (id t =? i)%string eqn:E; cbn; [exact IH |].
  rewrite E. cbn. now rewrite IH.
Qed.

Lemma removeTask_markDeleting i tasks :
  removeTask i (markDeleting i tasks) = removeTask i tasks.
Proof.
  unfold removeTask, markDeleting.
  induction tasks as [| t tasks IH]; [reflexivity |].
  cbn. destruct (id t =? i)%string eqn:E; cbn; rewrite E; cbn; now rewrite IH.
Qed.

Lemma persisted_markDeleting_removeTask i tasks :
  persisted (markDeleting i tasks) = removeTask i (persisted tasks).
Proof.
  unfold persisted, removeTask, markDeleting.
  induction tasks as [| t tasks IH]; [reflexivity |].
  cbn. destruct (id t =? i)%string eqn:E; cbn.
  - rewrite IH. destruct (JS.truthy (isDeleting t)); cbn; [reflexivity |].
    now rewrite E.
  - rewrite IH. destruct (JS.truthy (isDeleting t)); cbn; [reflexivity |].
    now rewrite E.
Qed.

Lemma persisted_removeTask i tasks :
  persisted (removeTask i tasks) = removeTask i (persisted tasks).
Proof.
  unfold persisted, removeTask.
  induction tasks as [| t tasks IH]; [reflexivity |].
  cbn. destruct (id t =? i)%string eqn:E, (JS.truthy (isDeleting t)) eqn:D;
    cbn; rewrite ?E, ?D; cbn; now rewrite IH.
Qed.

Lemma toggleTask_comm i j tasks :
  toggleTask i (toggleTask j tasks) = toggleTask j (toggleTask i tasks).
Proof. unfold toggleTask. entrywise. Qed.

Lemma clearIsNew_toggleTask i j tasks :
  clearIsNew i (toggleTask j tasks) = toggleTask j (clearIsNew i tasks).
Proof. unfold clearIsNew, toggleTask. entrywise. Qed.

Lemma markDeleting_toggleTask i j tasks :
  markDeleting i (toggleTask j tasks) = toggleTask j (markDeleting i tasks).
Proof. unfold markDeleting, toggleTask. entrywise. Qed.

Lemma removeTask_toggleTask i j tasks :
  removeTask i (toggleTask j tasks) = toggleTask j (removeTask i tasks).
Proof.
  unfold removeTask, toggleTask.
  induction tasks as [| t tasks IH]; [reflexivity |].
  cbn. destruct (id t =? j)%string eqn:Ej, (id t =? i)%string eqn:Ei;
    cbn; rewrite ?Ej, ?Ei; cbn; now rewrite IH.
Qed.

Lemma persisted_toggleTask j tasks :
  persisted (toggleTask j tasks) = toggleTask j (persisted tasks).
Proof.
  unfold persisted, toggleTask.
  induction tasks as [| t tasks IH]; [reflexivity |].
  cbn. destruct (id t =? j)%string eqn:Ej, (JS.truthy (isDeleting t)) eqn:D;
    cbn; rewrite ?Ej, ?D; cbn; now rewrite IH.
Qed.

End Compose.

(** X6. Confirming the deletion of a task a second time, while it is still
    on the screen, changes nothing: the flag is set as before, the second
    timer finds nothing to remove, and the removal does not depend on the
    flag. *)
Theorem deleteTask_again (taskId : string) (tasks : list Task) :
  markDeleting taskId (markDeleting taskId tasks) = markDeleting taskId tasks
  /\ removeTask taskId (removeTask taskId tasks) = removeTask taskId tasks
  /\ removeTask taskId (markDeleting taskId tasks) = removeTask taskId tasks.
Proof.
  repeat split.
  - apply markDeleting_twice.
  - apply removeTask_twice.
  - apply removeTask_markDeleting.
Qed.

(** X7. What the effect stores right after [deleteTask] has set the flag is
    what it stores after the timer has removed the task: the stored tasks
    are those stored before, without the tasks of that id. The timer of a
    deletion changes the memory and not the storage. *)
Theorem deleteTask_stored_at_once (taskId : string) (tasks : list Task) :
  persisted (markDeleting taskId tasks) = removeTask taskId (persisted tasks)
  /\ persisted (removeTask taskId (markDeleting taskId tasks))
     = persisted (markDeleting taskId tasks).
Proof.
  split; [apply persisted_markDeleting_removeTask |].
  rewrite removeTask_markDeleting, persisted_removeTask.
  symmetry. apply persisted_markDeleting_removeTask.
Qed.

(** X8. A toggle and a timer can come in either order: toggling before or
    after the [isNew] flag is cleared, before or after a task is flagged
    for deletion, before or after it is removed, gives the same tasks; two
    toggles commute; and a toggle does not change which tasks are stored. *)
Theorem toggleTask_commutes (i j : string) (tasks : list Task) :
  toggleTask i (toggleTask j tasks) = toggleTask j (toggleTask i tasks)
  /\ clearIsNew i (toggleTask j tasks) = toggleTask j (clearIsNew i tasks)
  /\ markDeleting i (toggleTask j tasks) = toggleTask j (markDeleting i tasks)
  /\ removeTask i (toggleTask j tasks) = toggleTask j (removeTask i tasks)
  /\ persisted (toggleTask j tasks) = toggleTask j (persisted tasks).
Proof.
  repeat split.
  - apply toggleTask_comm.
  - apply clearIsNew_toggleTask.
  - apply markDeleting_toggleTask.
  - apply removeTask_toggleTask.
  - apply persisted_toggleTask.
Qed.

(** ** What a run keeps *)

Section Frames.

Implicit Types (w : App) (e : event) (es : list event) (tasks : list Task)
  (t : Task) (i : string).

Lemma core_toggleTask i tasks : map core (toggleTask i tasks) = map core tasks.
Proof.
  unfold toggleTask. rewrite map_map. apply map_ext. intros t.
  now destruct (id t =? i)%string.
Qed.

Lemma core_markDeleting i tasks : map core (markDeleting i tasks) = map core tasks.
Proof.
  unfold markDeleting. rewrite map_map. apply map_ext. intros t.
  now destruct (id t =? i)%string.
Qed.

Lemma core_clearIsNew i tasks : map core (clearIsNew i tasks) = map core tasks.
Proof.
  unfold clearIsNew. rewrite map_map. apply map_ext. intros t.
  now destruct (id t =? i)%string.
Qed.

Lemma ids_core tasks : ids tasks = map (fun p => fst (fst p)) (map core tasks).
Proof. unfold ids. rewrite map_map. reflexivity. Qed.

Lemma NoDup_map_filter {A B} (g : A -> B) (f : A -> bool) (l : list A) :
  List.NoDup (map g l) -> List.NoDup (map g (List.filter f l)).
Proof.
  induction l as [| x l IH]; cbn; [trivial |].
  intros H. inversion H as [| ? ? Hx Hl]; subst.
  destruct (f x); cbn; [| now apply IH].
  constructor; [| now apply IH].
  intros Hin. apply Hx. apply in_map_iff in Hin as (y & E & Hy).
  apply in_map_iff. exists y. split; [exact E |].
  now apply filter_In in Hy as [Hy _].
Qed.

(** The tasks after an event that is not a submit: the same cores in the
    same order, or some tasks less, or the same tasks in another order. *)
Lemma step_cores_kept e w w' :
  step e w = Some w' -> submits [e] = [] ->
  incl (map core (tasks w')) (map core (tasks w))
  /\ (List.NoDup (ids (tasks w)) -> List.NoDup (ids (tasks w'))).
Proof.
  destruct e as [value | c | now | taskId | taskId | activeId [overId |] |];
    cbn [step]; intros H Hs; try discriminate Hs.
  - injection H as <-. cbn. split; [apply incl_refl | trivial].
  - injection H as <-. cbn. split; [apply incl_refl | trivial].
  - injection H as <-. cbn [tasks setTasks]. rewrite core_toggleTask.
    split; [apply incl_refl |]. now rewrite !ids_core, core_toggleTask.
  - injection H as <-. cbn [tasks setTasks setTimeout].
    rewrite core_markDeleting.
    split; [apply incl_refl |]. now rewrite !ids_core, core_markDeleting.
  - destruct (negb (activeId =? overId)%string).
    + destruct (moveItem activeId overId (tasks w)) as [ts |] eqn:E; [| discriminate].
      injection H as <-. cbn [tasks setTasks].
      assert (P : Permutation ts (tasks w)).
      { destruct (tasks w) as [| x0 rest] eqn:Et; [discriminate E |].
        destruct (moveItem_takes_one activeId overId (x0 :: rest))
          as (i & j & x & Hx & _ & _ & Hm); [discriminate |].
        rewrite Hm in E. injection E as <-. now apply moved_Permutation. }
      split.
      * intros p Hp. apply (Permutation_in p (Permutation_map core P) Hp).
      * apply Permutation_NoDup. unfold ids. apply Permutation_map.
        now symmetry.
    + injection H as <-. split; [apply incl_refl | trivial].
  - injection H as <-. split; [apply incl_refl | trivial].
  - destruct (timers w) as [| [taskId | taskId] rest]; injection H as <-;
      cbn [tasks setTasks runTimer].
    + split; [apply incl_refl | trivial].
    + rewrite core_clearIsNew.
      split; [apply incl_refl |]. now rewrite !ids_core, core_clearIsNew.
    + split.
      * unfold removeTask. intros p Hp.
        apply in_map_iff in Hp as (t & <- & Ht).
        apply filter_In in Ht as [Ht _]. now apply in_map.
      * unfold ids, removeTask. apply NoDup_map_filter.
Qed.

(** The one event that adds a task. *)
Lemma step_Submit now w :
  step (Submit now) w
  = Some (if JS.truthy_string (JS.trim (newTask w))
          then setTimeout (ClearIsNew (JS.toString now))
                 (mkApp (tasks w ++ [newTaskRecord now (newTask w) (selectedCategory w)])
                    EmptyString (selectedCategory w)
                    (saveTasks
                       (tasks w ++ [newTaskRecord now (newTask w) (selectedCategory w)])
                       (localStorage w))
                    (timers w))
          else w).
Proof.
  cbn [step]. unfold addTask.
  now destruct (JS.truthy_string (JS.trim (newTask w))).
Qed.

Lemma NoDup_app_incl {A} (l l' r : list A) :
  List.NoDup (l ++ r) -> List.NoDup l' -> incl l' l -> List.NoDup (l' ++ r).
Proof.
  intros H Hl' Hincl. apply List.NoDup_app.
  - exact Hl'.
  - exact (NoDup_app_remove_l _ _ H).
  - intros a Ha Hr. apply Hincl in Ha.
    apply NoDup_ListNoDup, NoDup_app in H as (_ & Hd & _).
    apply (Hd a); now apply list_elem_of_In.
Qed.

Lemma incl_ids tasks tasks' :
  incl (map core tasks') (map core tasks) -> incl (ids tasks') (ids tasks).
Proof. intros H. rewrite !ids_core. now apply incl_map. Qed.

End Frames.

Section Storage.

Implicit Types (w : App) (e : event) (es : list event) (k : string).

Lemma step_other_keys e w w' k :
  k <> "tasks" -> step e w = Some w' ->
  localStorage w' !! k = localStorage w !! k.
Proof.
  intros Hk.
  assert (S : forall ts st, saveTasks ts st !! k = st !! k).
  { intros ts st. unfold saveTasks. apply lookup_insert_ne. congruence. }
  destruct e as [value | c | now | taskId | taskId | activeId [overId |] |];
    cbn [step]; intros H.
  - now injection H as <-.
  - now injection H as <-.
  - destruct (JS.truthy_string (JS.trim (newTask w))); injection H as <-;
      [apply S | reflexivity].
  - injection H as <-. apply S.
  - injection H as <-. apply S.
  - destruct (negb (activeId =? overId)%string).
    + destruct (moveItem activeId overId (tasks w)); [| discriminate].
      injection H as <-. apply S.
    + now injection H as <-.
  - now injection H as <-.
  - destruct (timers w) as [| t rest]; injection H as <-; [reflexivity | apply S].
Qed.

Lemma clearIsNew_cleared taskId (tasks : list Task) :
  Forall (fun t => id t = taskId -> isNew t = Some false) (clearIsNew taskId tasks).
Proof.
  apply List.Forall_forall. intros t Ht E. unfold clearIsNew in Ht.
  apply in_map_iff in Ht as (t0 & <- & _).
  destruct (String.eqb_spec (id t0) taskId) as [E0 | E0]; [reflexivity |].
  contradiction.
Qed.

End Storage.

(** X9. The component writes one key of [localStorage] and no other:
    through any run, the value under every key that is not the key of the
    tasks is what it was. *)
Theorem run_other_keys (es : list event) (w w' : App) (k : string) :
  k <> "tasks" -> run es w = Some w' ->
  localStorage w' !! k = localStorage w !! k.
Proof.
  intros Hk. revert w. induction es as [| e es IH]; intros w H; cbn [run] in H.
  - now injection H as <-.
  - destruct (step e w) as [w1 |] eqn:E; [| discriminate].
    rewrite (IH w1 H). exact (step_other_keys e w w1 k Hk E).
Qed.

Lemma run_other_keys_witness :
  exists w',
    run [Toggle "2"; Delete "4"; Timeout]
        (mount defaultTasks (<["theme" := "dark"]> ∅)) = Some w'
    /\ localStorage w' !! "theme" = Some "dark".
Proof.
  eexists. split; [reflexivity |].
  rewrite (run_other_keys [Toggle "2"; Delete "4"; Timeout]
             (mount defaultTasks (<["theme" := "dark"]> ∅)) _ "theme");
    [vm_compute; reflexivity | discriminate | reflexivity].
Defined.

(** X10. After the first render and any run of events, a reload finds the
    tasks of the memory without the flagged ones: the initializer, given
    the storage as the run left it, returns their value, and so never the
    default tasks in their place. *)
Theorem reload_after_run (ts : list Task) (storage : gmap string string)
    (es : list event) (w : App) :
  run es (mount ts storage) = Some w ->
  initTasks (localStorage w) = JSON.Ok (tasks_value (persisted (tasks w))).
Proof.
  intros H.
  pose proof (run_synced es _ w H (setTasks_synced ts _)) as Hs.
  unfold initTasks. rewrite Hs, stringify_tasks_truthy.
  apply parse_stringify_tasks.
Qed.

Lemma reload_after_run_witness :
  exists w,
    run [Delete "1"; Delete "2"; Delete "3"; Delete "4"] (mount defaultTasks ∅)
    = Some w
    /\ initTasks (localStorage w) = JSON.Ok (JSON.Array []).
Proof.
  eexists. split; [reflexivity |].
  apply (reload_after_run defaultTasks ∅
           [Delete "1"; Delete "2"; Delete "3"; Delete "4"]).
  reflexivity.
Defined.

(** X11. A submit leaves the input empty or blank, so a second submit right
    after it, with nothing typed in between, changes nothing: one text
    gives one task at most. *)
Theorem submit_twice (now later : Z) (w : App) :
  exists w1,
    step (Submit now) w = Some w1
    /\ JS.trim (newTask w1) = EmptyString
    /\ step (Submit later) w1 = Some w1.
Proof.
  rewrite step_Submit.
  destruct (JS.truthy_string (JS.trim (newTask w))) eqn:E.
  - eexists. split; [reflexivity |]. split; reflexivity.
  - exists w. split; [reflexivity |].
    assert (Hb : JS.trim (newTask w) = EmptyString).
    { unfold JS.truthy_string in E. apply negb_false_iff in E.
      now apply String.eqb_eq in E. }
    split; [exact Hb |]. rewrite step_Submit. now rewrite E.
Qed.

(** X12. The [isNew] flag of a created task is cleared when the timer of
    [addTask] runs: after a submit with a text that is not blank, once the
    timers that were waiting before have run and then this one, whatever
    else has happened in between, every task with the new id has [isNew]
    set to [false]. *)
Theorem isNew_cleared (now : Z) (es : list event) (w w' : App) :
  JS.trim (newTask w) <> EmptyString ->
  timeouts es = List.length (timers w) ->
  run (Submit now :: es ++ [Timeout]) w = Some w' ->
  Forall (fun t => id t = JS.toString now -> isNew t = Some false) (tasks w').
Proof.
  intros Hne Hn H. cbn [run] in H. rewrite step_Submit in H.
  unfold JS.truthy_string in H.
  rewrite (proj2 (String.eqb_neq _ _) Hne) in H. cbn [negb] in H.
  rewrite run_app in H.
  match type of H with
  | match run es ?w1 with _ => _ end = _ =>
      destruct (run es w1) as [w2 |] eqn:E; [| discriminate];
      destruct (run_keeps_timer es w1 w2 (timers w)
                  (ClearIsNew (JS.toString now)) [] eq_refl Hn E) as (post & Hq)
  end.
  cbn [run step] in H. rewrite Hq in H. injection H as <-.
  cbn [tasks setTasks runTimer]. apply clearIsNew_cleared.
Qed.

Lemma isNew_cleared_witness :
  exists w',
    run (Submit 1700000000000 :: [Toggle "1"] ++ [Timeout])
        (mkApp defaultTasks "Stretch" physical ∅ []) = Some w'
    /\ Forall (fun t => id t = JS.toString 1700000000000 -> isNew t = Some false)
         (tasks w').
Proof.
  eexists. split; [reflexivity |].
  apply (isNew_cleared 1700000000000 [Toggle "1"]
           (mkApp defaultTasks "Stretch" physical ∅ [])).
  - discriminate.
  - reflexivity.
  - reflexivity.
Defined.

(** X13. No event invents a task, and the ids stay distinct as long as the
    clock does its part: after any run, every id was an id at the start or
    is the clock value of a submit of the run, in digits; and when those
    are pairwise distinct, so are the ids at the end. *)
Theorem run_ids_distinct (es : list event) (w w' : App) :
  run es w = Some w' ->
  incl (ids (tasks w')) (ids (tasks w) ++ map JS.toString (submits es))
  /\ (List.NoDup (ids (tasks w) ++ map JS.toString (submits es)) ->
      List.NoDup (ids (tasks w'))).
Proof.
  revert w w'.
  induction es as [| e es IH]; intros w w' H; cbn [run] in H.
  - injection H as <-. cbn. rewrite app_nil_r. split; [apply incl_refl | trivial].
  - destruct (step e w) as [w1 |] eqn:E; [| discriminate].
    destruct (IH w1 w' H) as [Hincl Hnd].
    destruct (submits [e]) as [| now0 l0] eqn:Es.
    + destruct (step_cores_kept e w w1 E Es) as [Hc Hk].
      apply incl_ids in Hc.
      assert (Hsub : submits (e :: es) = submits es)
        by (unfold submits in *; cbn [flat_map] in *;
            rewrite app_nil_r in Es; now rewrite Es).
      rewrite Hsub. split.
      * intros a Ha. apply Hincl in Ha. apply in_app_iff in Ha as [Ha | Ha];
          apply in_app_iff; [left; now apply Hc | now right].
      * intros Hall. apply Hnd.
        apply (NoDup_app_incl (ids (tasks w))); trivial.
        apply Hk. exact (NoDup_app_remove_r _ _ Hall).
    + destruct e; try discriminate Es.
      rewrite step_Submit in E. injection E as <-.
      cbn [submits flat_map app map] in *.
      destruct (JS.truthy_string (JS.trim (newTask w))).
      * cbn [tasks setTimeout] in *. unfold ids in Hincl, Hnd.
        rewrite map_app in Hincl, Hnd. cbn [map id newTaskRecord] in Hincl, Hnd.
        fold (ids (tasks w)) in Hincl, Hnd.
        rewrite <- app_assoc in Hincl, Hnd. cbn [app] in Hincl, Hnd.
        split; [exact Hincl | exact Hnd].
      * split.
        -- intros a Ha. apply Hincl in Ha. apply in_app_iff in Ha as [Ha | Ha];
             apply in_app_iff; [now left | right; now right].
        -- intros Hall. apply Hnd. exact (NoDup_remove_1 _ _ _ Hall).
Qed.

Lemma run_ids_distinct_witness :
  exists w',
    run [Change "Stretch"; Submit 1700000000000; DragEnd "4" (Some "1");
         Delete "2"; Timeout; Timeout]
        (mount defaultTasks ∅) = Some w'
    /\ List.NoDup (ids (tasks w')).
Proof.
  eexists. split; [reflexivity |].
  apply (proj2 (run_ids_distinct
                  [Change "Stretch"; Submit 1700000000000; DragEnd "4" (Some "1");
                   Delete "2"; Timeout; Timeout]
                  (mount defaultTasks ∅) _ eq_refl)).
  vm_compute. repeat constructor; cbn; intuition discriminate.
Defined.

(** X14. No event rewrites a task: after any one event, every task has the
    id, the text and the category of a task that was there before it, or
    is the one task that a submit has just made from the input, the
    selected category and the clock. *)
Theorem step_keeps_cores (e : event) (w w' : App) (task : Task) :
  step e w = Some w' -> In task (tasks w') ->
  (exists before, In before (tasks w) /\ core before = core task)
  \/ (exists now, e = Submit now
                  /\ task = newTaskRecord now (newTask w) (selectedCategory w)).
Proof.
  intros H Hin. destruct (submits [e]) as [| now0 l0] eqn:Es.
  - left. destruct (step_cores_kept e w w' H Es) as [Hc _].
    assert (Hcore : In (core task) (map core (tasks w)))
      by (apply Hc; now apply in_map).
    apply in_map_iff in Hcore as (before & E & Hb). eauto.
  - destruct e; try discriminate Es.
    rewrite step_Submit in H. injection H as <-.
    destruct (JS.truthy_string (JS.trim (newTask w))).
    + cbn [tasks setTimeout] in Hin. apply in_app_iff in Hin as [Hin | [<- | []]].
      * left. eauto.
      * right. eauto.
    + left. eauto.
Qed.

Lemma step_keeps_cores_witness :
  exists w',
    step (Toggle "2") (mount defaultTasks ∅) = Some w'
    /\ ((exists before,
           In before (tasks (mount defaultTasks ∅))
           /\ core before = core (mkTask "2" "Meditation" true spiritual None None))
        \/ (exists now,
              Toggle "2" = Submit now
              /\ mkTask "2" "Meditation" true spiritual None None
                 = newTaskRecord now (newTask (mount defaultTasks ∅))
                     (selectedCategory (mount defaultTasks ∅)))).
Proof.
  eexists. split; [reflexivity |].
  apply (step_keeps_cores (Toggle "2") (mount defaultTasks ∅) _
           (mkTask "2" "Meditation" true spiritual None None) eq_refl).
  cbn. tauto.
Defined.

(** ** The row *)

(** X15. A row asks for the deletion of its task only on a click on Delete
    that comes after a click on the trash button: from the state in which
    a row starts, no run of clicks calls [onDelete] before that. *)
Theorem onDelete_after_trash (bs : list button) (final : bool) (calls : list intent) :
  clicks bs false = Some (final, calls) ->
  In OnDelete calls ->
  exists before after,
    bs = before ++ TrashButton :: after /\ In DeleteButton after.
Proof.
  assert (G : forall bs st final calls,
    clicks bs st = Some (final, calls) -> In OnDelete calls ->
    (st = true /\ In DeleteButton bs)
    \/ exists before after,
         bs = before ++ TrashButton :: after /\ In DeleteButton after).
  { clear. induction bs as [| b bs IH]; intros st final calls H Hin; cbn [clicks] in H.
    - injection H as <- <-. contradiction.
    - destruct (click b st) as [[next called] |] eqn:Ec; [| discriminate].
      destruct (clicks bs next) as [[final' calls'] |] eqn:Er; [| discriminate].
      injection H as <- <-.
      assert (Hcases : (b = DeleteButton /\ st = true) \/ In OnDelete calls').
      { destruct b, st; cbn in Ec; try discriminate Ec;
          injection Ec as <- <-; cbn in Hin;
          try (destruct Hin as [Hd | Hd]; [discriminate Hd | now right]);
          try (now right).
        destruct Hin as [_ | Hd]; [left; split; reflexivity | now right]. }
      destruct Hcases as [[-> ->] | Hd].
      + left. split; [reflexivity | now left].
      + destruct (IH next final' calls' Er Hd) as [[-> Hdel] | (pre & post & -> & Hdel)].
        * destruct b, st; cbn in Ec; try discriminate Ec.
          -- left. split; [reflexivity | now right].
          -- right. exists [], bs. split; [reflexivity | exact Hdel].
          -- left. split; [reflexivity | now right].
        * right. exists (b :: pre), post. split; [reflexivity | exact Hdel]. }
  intros H Hin. destruct (G bs false final calls H Hin) as [[E _] | R];
    [discriminate E | exact R].
Qed.

Lemma onDelete_after_trash_witness :
  exists before after,
    [ToggleButton; TrashButton; CancelButton; TrashButton; DeleteButton]
    = before ++ TrashButton :: after
    /\ In DeleteButton after.
Proof.
  apply (onDelete_after_trash
           [ToggleButton; TrashButton; CancelButton; TrashButton; DeleteButton]
           true [OnToggle; OnDelete]).
  - reflexivity.
  - cbn. tauto.
Defined.

(** ** Blank input *)

Section Blank.

Implicit Types (s r : string) (c : ascii).





End Blank.


(** ** A flag that was stored *)

Section Reloaded.

Implicit Types (w : App) (e : event) (es : list event) (i : string)
  (tasks : list Task).

Lemma core_isNew_toggleTask i tasks :
  map core_isNew (toggleTask i tasks) = map core_isNew tasks.
Proof.
  unfold toggleTask. rewrite map_map. apply map_ext. intros t.
  now destruct (id t =? i)%string.
Qed.

Lemma core_isNew_markDeleting i tasks :
  map core_isNew (markDeleting i tasks) = map core_isNew tasks.
Proof.
  unfold markDeleting. rewrite map_map. apply map_ext. intros t.
  now destruct (id t =? i)%string.
Qed.

(** Without a submit the queue holds removals only, and no event writes
    [isNew]. *)
Lemma step_keeps_isNew e w w' :
  step e w = Some w' -> submits [e] = [] ->
  forallb is_removal (timers w) = true ->
  incl (map core_isNew (tasks w')) (map core_isNew (tasks w))
  /\ forallb is_removal (timers w') = true.
Proof.
  destruct e as [value | c | now | taskId | taskId | activeId [overId |] |];
    cbn [step]; intros H Hs Hq; try discriminate Hs.
  - injection H as <-. split; [apply incl_refl | exact Hq].
  - injection H as <-. split; [apply incl_refl | exact Hq].
  - injection H as <-. cbn [tasks timers setTasks].
    rewrite core_isNew_toggleTask. split; [apply incl_refl | exact Hq].
  - injection H as <-. cbn [tasks timers setTasks setTimeout].
    rewrite core_isNew_markDeleting. split; [apply incl_refl |].
    rewrite forallb_app, Hq. reflexivity.
  - destruct (negb (activeId =? overId)%string).
    + destruct (moveItem activeId overId (tasks w)) as [ts |] eqn:E; [| discriminate].
      injection H as <-. cbn [tasks timers setTasks]. split; [| exact Hq].
      destruct (tasks w) as [| x0 rest] eqn:Et; [discriminate E |].
      destruct (moveItem_takes_one activeId overId (x0 :: rest))
        as (i & j & x & Hx & _ & _ & Hm); [discriminate |].
      rewrite Hm in E. injection E as <-.
      intros p Hp.
      exact (Permutation_in p
               (Permutation_map core_isNew (moved_Permutation _ i j x Hx)) Hp).
    + injection H as <-. split; [apply incl_refl | exact Hq].
  - injection H as <-. split; [apply incl_refl | exact Hq].
  - destruct (timers w) as [| [taskId | taskId] rest] eqn:Et; injection H as <-;
      cbn [tasks timers setTasks runTimer].
    + rewrite Et. split; [apply incl_refl | exact Hq].
    + discriminate Hq.
    + split; [| exact Hq].
      unfold removeTask. intros p Hp.
      apply in_map_iff in Hp as (t & <- & Ht).
      apply filter_In in Ht as [Ht _]. now apply in_map.
Qed.

End Reloaded.

(** X17. After a first render, in a run with no submit, nothing clears an
    [isNew] flag: every task has at the end the id, text, category and
    [isNew] of a task that was loaded. A task that was stored while its
    flag was set has it for good after a reload. *)
Theorem loaded_isNew_stays (ts : list Task) (storage : gmap string string)
    (es : list event) (w : App) :
  submits es = [] ->
  run es (mount ts storage) = Some w ->
  incl (map core_isNew (tasks w)) (map core_isNew ts).
Proof.
  intros Hs H.
  assert (G : forall es w0 w1,
    submits es = [] -> forallb is_removal (timers w0) = true ->
    run es w0 = Some w1 ->
    incl (map core_isNew (tasks w1)) (map core_isNew (tasks w0))).
  { clear. induction es as [| e es IH]; intros w0 w1 Hs Hq H; cbn [run] in H.
    - injection H as <-. apply incl_refl.
    - destruct (step e w0) as [w |] eqn:E; [| discriminate].
      assert (Hs' : submits [e] = [] /\ submits es = []).
      { unfold submits in *. cbn [flat_map] in *.
        apply app_eq_nil in Hs as [He Hes]. rewrite He. now split. }
      destruct Hs' as [He Hes].
      destruct (step_keeps_isNew e w0 w E He Hq) as [Hincl Hq'].
      intros p Hp. apply Hincl. exact (IH w w1 Hes Hq' H p Hp). }
  exact (G es (mount ts storage) w Hs eq_refl H).
Qed.

Lemma loaded_isNew_stays_witness :
  let loaded := [mkTask "1700000000000" "Stretch" false physical (Some true) None] in
  exists w,
    run [Toggle "1700000000000"; Timeout; Timeout] (mount loaded ∅) = Some w
    /\ incl (map core_isNew (tasks w)) (map core_isNew loaded)
    /\ map isNew (tasks w) = [Some true].
Proof.
  cbv zeta. eexists. split; [reflexivity |]. split; [| reflexivity].
  apply (loaded_isNew_stays
           [mkTask "1700000000000" "Stretch" false physical (Some true) None] ∅
           [Toggle "1700000000000"; Timeout; Timeout]);
    reflexivity.
Defined.

(** ** The view under the handlers *)

Section Layout.

Implicit Types (tasks : list Task) (c : Category) (i : string).

Lemma categoryTasks_map (f : Task -> Task) c tasks :
  (forall t, category (f t) = category t) ->
  categoryTasks c (map f tasks) = map f (categoryTasks c tasks).
Proof.
  intros Hf. unfold categoryTasks.
  induction tasks as [| t tasks IH]; [reflexivity |].
  cbn. rewrite Hf. destruct (Category_eqb (category t) c); cbn; now rewrite IH.
Qed.

Lemma categoryTasks_toggleTask c i tasks :
  categoryTasks c (toggleTask i tasks) = toggleTask i (categoryTasks c tasks).
Proof.
  apply categoryTasks_map. intros t. now destruct (id t =? i)%string.
Qed.

Lemma categoryTasks_markDeleting c i tasks :
  categoryTasks c (markDeleting i tasks) = markDeleting i (categoryTasks c tasks).
Proof.
  apply categoryTasks_map. intros t. now destruct (id t =? i)%string.
Qed.

Lemma categoryTasks_clearIsNew c i tasks :
  categoryTasks c (clearIsNew i tasks) = clearIsNew i (categoryTasks c tasks).
Proof.
  apply categoryTasks_map. intros t. now destruct (id t =? i)%string.
Qed.

Lemma renderSections_map (f : Task -> Task) tasks :
  (forall c, categoryTasks c (map f tasks) = map f (categoryTasks c tasks)) ->
  renderSections (map f tasks)
  = map (option_map (fun s => (fst s, map f (snd s)))) (renderSections tasks).
Proof.
  intros Hf. unfold renderSections. rewrite map_map. apply map_ext. intros c.
  rewrite Hf, length_map.
  now destruct (List.length (categoryTasks c tasks) =? 0)%nat.
Qed.

End Layout.

(** X18. The sections on the screen are the same, with the same rows in the
    same places, after a toggle, after the [isNew] flag is cleared and
    after a task is flagged for deletion: each of these handlers is applied
    row by row, so a section goes away when the timer removes its last
    task and not when the deletion is confirmed. *)
Theorem sections_keep_their_rows (taskId : string) (tasks : list Task) :
  renderSections (toggleTask taskId tasks)
  = map (option_map (fun s => (fst s, toggleTask taskId (snd s))))
      (renderSections tasks)
  /\ renderSections (clearIsNew taskId tasks)
     = map (option_map (fun s => (fst s, clearIsNew taskId (snd s))))
         (renderSections tasks)
  /\ renderSections (markDeleting taskId tasks)
     = map (option_map (fun s => (fst s, markDeleting taskId (snd s))))
         (renderSections tasks).
Proof.
  repeat split.
  - apply renderSections_map. intros c. apply categoryTasks_toggleTask.
  - apply renderSections_map. intros c. apply categoryTasks_clearIsNew.
  - apply renderSections_map. intros c. apply categoryTasks_markDeleting.
Qed.

(** X19. The timer of [addTask] writes [isNew] and nothing else: it leaves
    the tasks as they are when no task has the id (the task was removed in
    the meantime), running it again changes nothing, and [completed],
    [isDeleting], the id, the text and the category of every task are what
    they were. *)
Theorem clearIsNew_only_isNew (taskId : string) (tasks : list Task) :
  (~ In taskId (ids tasks) -> clearIsNew taskId tasks = tasks)
  /\ clearIsNew taskId (clearIsNew taskId tasks) = clearIsNew taskId tasks
  /\ map (fun t => (core t, completed t, isDeleting t)) (clearIsNew taskId tasks)
     = map (fun t => (core t, completed t, isDeleting t)) tasks.
Proof.
  repeat split.
  - intros Hno. apply map_fixes. intros t Ht.
    now rewrite (absent_eqb tasks taskId t Hno Ht).
  - unfold clearIsNew. rewrite map_map. apply map_ext.
    intros [i x c g n d]. cbn. destruct (i =? taskId)%string eqn:E; cbn; now rewrite E.
  - unfold clearIsNew. rewrite map_map. apply map_ext. intros t.
    now destruct (id t =? taskId)%string.
Qed.

Lemma clearIsNew_only_isNew_witness :
  clearIsNew "9" defaultTasks = defaultTasks.
Proof.
  apply (proj1 (clearIsNew_only_isNew "9" defaultTasks)).
  cbn. intros [H | [H | [H | [H | []]]]]; discriminate H.
Defined.

(** ** A drag inside one section *)

Section SectionDrag.

Implicit Types (items P Q R : list Task) (x y : Task) (a b : string)
  (c : Category).

Lemma found_split (p : Task -> bool) items i :
  JS.findIndex p items = Z.of_nat i ->
  exists P x R,
    items = P ++ x :: R /\ p x = true /\ forall t, In t P -> p t = false.
Proof.
  intros H. destruct (findIndex_found p items i H) as (x & Hx & Px & Hfirst).
  exists (firstn i items), x, (skipn (S i) items). repeat split; trivial.
  - rewrite <- (skipn_nth_error i items x Hx). symmetry. apply firstn_skipn.
  - intros t Ht. apply In_nth_error in Ht as (k & Hk).
    rewrite nth_error_firstn in Hk.
    destruct (k <? i)%nat eqn:E; [| discriminate].
    apply Nat.ltb_lt in E. exact (Hfirst k t E Hk).
Qed.

Lemma findIndex_split (p : Task -> bool) P x R :
  (forall t, In t P -> p t = false) -> p x = true ->
  JS.findIndex p (P ++ x :: R) = Z.of_nat (List.length P).
Proof.
  intros HP Px. apply (findIndex_first p _ _ x).
  - rewrite nth_error_app2 by lia. now rewrite Nat.sub_diag.
  - exact Px.
  - intros k t Hk Ht. rewrite nth_error_app1 in Ht by exact Hk.
    apply HP. exact (nth_error_In P k Ht).
Qed.

Lemma remove_at_split {A} (l1 : list A) (z : A) (l2 : list A) :
  remove_at (List.length l1) (l1 ++ z :: l2) = l1 ++ l2.
Proof.
  unfold remove_at.
  rewrite firstn_app, firstn_all, Nat.sub_diag. cbn [firstn].
  rewrite app_nil_r, skipn_app, (skipn_all2 l1) by lia.
  replace (S (List.length l1) - List.length l1)%nat with 1%nat by lia.
  reflexivity.
Qed.

Lemma insert_at_split {A} (l1 : list A) (z : A) (l2 : list A) :
  insert_at (List.length l1) z (l1 ++ l2) = l1 ++ z :: l2.
Proof.
  unfold insert_at.
  rewrite firstn_app, firstn_all, Nat.sub_diag. cbn [firstn].
  rewrite app_nil_r, skipn_app, (skipn_all2 l1), Nat.sub_diag by lia.
  rewrite skipn_O. reflexivity.
Qed.

(** The dragged task stands before the target: it lands right after it. *)
Lemma moveItem_forward a b P x Q y R :
  (forall t, In t P -> has_id a t = false) -> has_id a x = true ->
  (forall t, In t (P ++ x :: Q) -> has_id b t = false) -> has_id b y = true ->
  moveItem a b (P ++ x :: Q ++ y :: R) = Some (P ++ Q ++ y :: x :: R).
Proof.
  intros Ha Hx Hb Hy.
  rewrite (moveItem_found a b _ (List.length P) (List.length (P ++ x :: Q)) x).
  - rewrite remove_at_split.
    replace (P ++ Q ++ y :: R) with ((P ++ Q ++ [y]) ++ R)
      by (now rewrite <- !app_assoc).
    replace (List.length (P ++ x :: Q)) with (List.length (P ++ Q ++ [y]))
      by (rewrite !length_app; cbn [List.length]; lia).
    rewrite insert_at_split. now rewrite <- !app_assoc.
  - now apply findIndex_split.
  - replace (P ++ x :: Q ++ y :: R) with ((P ++ x :: Q) ++ y :: R)
      by (now rewrite <- app_assoc).
    now apply findIndex_split.
  - rewrite nth_error_app2 by lia. now rewrite Nat.sub_diag.
Qed.

(** The dragged task stands after the target: it lands right before it. *)
Lemma moveItem_backward a b P y Q x R :
  (forall t, In t P -> has_id b t = false) -> has_id b y = true ->
  (forall t, In t (P ++ y :: Q) -> has_id a t = false) -> has_id a x = true ->
  moveItem a b (P ++ y :: Q ++ x :: R) = Some (P ++ x :: y :: Q ++ R).
Proof.
  intros Hb Hy Ha Hx.
  rewrite (moveItem_found a b _ (List.length (P ++ y :: Q)) (List.length P) x).
  - replace (P ++ y :: Q ++ x :: R) with ((P ++ y :: Q) ++ x :: R)
      by (now rewrite <- app_assoc).
    rewrite remove_at_split, <- app_assoc. cbn [app].
    now rewrite insert_at_split.
  - replace (P ++ y :: Q ++ x :: R) with ((P ++ y :: Q) ++ x :: R)
      by (now rewrite <- app_assoc).
    now apply findIndex_split.
  - now apply findIndex_split.
  - replace (P ++ y :: Q ++ x :: R) with ((P ++ y :: Q) ++ x :: R)
      by (now rewrite <- app_assoc).
    rewrite nth_error_app2 by lia. now rewrite Nat.sub_diag.
Qed.

(** Two different ids that are found split the tasks in three. *)
Lemma found_both a b items :
  a <> b -> In a (ids items) -> In b (ids items) ->
  exists P x Q y R,
    has_id a x = true /\ has_id b y = true
    /\ ((items = P ++ x :: Q ++ y :: R
         /\ (forall t, In t P -> has_id a t = false)
         /\ (forall t, In t (P ++ x :: Q) -> has_id b t = false))
        \/ (items = P ++ y :: Q ++ x :: R
            /\ (forall t, In t P -> has_id b t = false)
            /\ (forall t, In t (P ++ y :: Q) -> has_id a t = false))).
Proof.
  intros Hne Ha Hb.
  destruct (findIndex_In a items Ha) as (i & Hi).
  destruct (findIndex_In b items Hb) as (j & Hj).
  destruct (found_split _ items i Hi) as (P & x & R1 & E1 & Px & HP).
  destruct (found_split _ items j Hj) as (P' & y & R2 & E2 & Py & HP').
  assert (Hxy : x <> y).
  { intros ->. unfold has_id in *.
    apply String.eqb_eq in Px, Py. congruence. }
  rewrite E1 in E2. apply app_eq_app in E2 as (l & [[EP El] | [EP El]]).
  - destruct l as [| y' Q]; cbn in El.
    + injection El as El _. congruence.
    + injection El as <- ->. subst P.
      exists P', x, Q, y, R1. repeat split; trivial.
      right. rewrite E1, <- app_assoc. cbn [app]. repeat split; trivial.
  - destruct l as [| x' Q]; cbn in El.
    + injection El as El _. congruence.
    + injection El as <- ->. subst P'.
      exists P, x, Q, y, R2. repeat split; trivial.
      left. rewrite E1. repeat split; trivial.
Qed.

Lemma categoryTasks_app c items items' :
  categoryTasks c (items ++ items') = categoryTasks c items ++ categoryTasks c items'.
Proof. unfold categoryTasks. apply List.filter_app. Qed.

Lemma categoryTasks_In c items t : In t (categoryTasks c items) -> In t items.
Proof. unfold categoryTasks. intros H. now apply filter_In in H as [H _]. Qed.

Lemma categoryTasks_own c x items :
  category x = c -> categoryTasks c (x :: items) = x :: categoryTasks c items.
Proof.
  intros <-. rewrite categoryTasks_cons.
  now rewrite (proj2 (Category_eqb_eq _ _) eq_refl).
Qed.

End SectionDrag.

(** X20. A drag inside one section reorders the section as a drag on the
    section alone would: when the two ids differ, both are ids of tasks and
    the tasks with these ids are of one category, the section of that
    category after [handleDragEnd] on all tasks is what [handleDragEnd]
    makes of the section itself. The flat order and the order that the
    sortable list of a section shows agree. *)
Theorem drag_inside_section (a b : string) (c : Category) (items : list Task) :
  a <> b -> In a (ids items) -> In b (ids items) ->
  (forall t, In t items -> id t = a \/ id t = b -> category t = c) ->
  exists newItems newSection,
    handleDragEnd a (Some b) items = Some newItems
    /\ handleDragEnd a (Some b) (categoryTasks c items) = Some newSection
    /\ categoryTasks c newItems = newSection.
Proof.
  intros Hne Ha Hb Hc. unfold handleDragEnd.
  rewrite (proj2 (String.eqb_neq _ _) Hne). cbn [negb].
  destruct (found_both a b items Hne Ha Hb)
    as (P & x & Q & y & R & Px & Py & [(E & HP & HPQ) | (E & HP & HPQ)]);
    assert (Cx : category x = c)
      by (apply Hc; [rewrite E; rewrite !in_app_iff; cbn; rewrite ?in_app_iff; cbn; tauto
                    | left; now apply String.eqb_eq in Px]);
    assert (Cy : category y = c)
      by (apply Hc; [rewrite E; rewrite !in_app_iff; cbn; rewrite ?in_app_iff; cbn; tauto
                    | right; now apply String.eqb_eq in Py]);
    rewrite E.
  - rewrite (moveItem_forward a b P x Q y R HP Px HPQ Py).
    rewrite categoryTasks_app, (categoryTasks_own c x _ Cx), categoryTasks_app,
      (categoryTasks_own c y _ Cy).
    rewrite (moveItem_forward a b (categoryTasks c P) x (categoryTasks c Q) y
               (categoryTasks c R)); trivial.
    + eexists. eexists. split; [reflexivity |]. split; [reflexivity |].
      rewrite !categoryTasks_app, (categoryTasks_own c y _ Cy),
        (categoryTasks_own c x _ Cx). reflexivity.
    + intros t Ht. apply HP. exact (categoryTasks_In c P t Ht).
    + intros t Ht. apply HPQ. apply in_app_iff in Ht as [Ht | [<- | Ht]];
        apply in_app_iff;
        [left; exact (categoryTasks_In c P t Ht)
        | right; now left
        | right; right; exact (categoryTasks_In c Q t Ht)].
  - rewrite (moveItem_backward a b P y Q x R HP Py HPQ Px).
    rewrite categoryTasks_app, (categoryTasks_own c y _ Cy), categoryTasks_app,
      (categoryTasks_own c x _ Cx).
    rewrite (moveItem_backward a b (categoryTasks c P) y (categoryTasks c Q) x
               (categoryTasks c R)); trivial.
    + eexists. eexists. split; [reflexivity |]. split; [reflexivity |].
      rewrite categoryTasks_app, (categoryTasks_own c x _ Cx),
        (categoryTasks_own c y _ Cy), categoryTasks_app. reflexivity.
    + intros t Ht. apply HP. exact (categoryTasks_In c P t Ht).
    + intros t Ht. apply HPQ. apply in_app_iff in Ht as [Ht | [<- | Ht]];
        apply in_app_iff;
        [left; exact (categoryTasks_In c P t Ht)
        | right; now left
        | right; right; exact (categoryTasks_In c Q t Ht)].
Qed.

Lemma drag_inside_section_witness :
  let items :=
    [ mkTask "1" "Morning workout" false physical None None;
      mkTask "2" "Meditation" false spiritual None None;
      mkTask "5" "Stretch" false physical None None;
      mkTask "6" "Run" false physical None None ] in
  exists newItems newSection,
    handleDragEnd "6" (Some "1") items = Some newItems
    /\ handleDragEnd "6" (Some "1") (categoryTasks physical items) = Some newSection
    /\ categoryTasks physical newItems = newSection.
Proof.
  cbv zeta.
  apply (drag_inside_section "6" "1" physical).
  - discriminate.
  - cbn. tauto.
  - cbn. tauto.
  - intros t [<- | [<- | [<- | [<- | []]]]] [H | H];
      first [reflexivity | discriminate H].
Defined.
